(** * ssh/connection.go: the connection-protocol layer

    A shallow embedding of [src/ssh/connection.go] and the properties the
    specification states about it.

    The file is organised as the Go file is: the error taxonomy
    ([OpenChannelError], [DisconnectReason], [DisconnectError]), the
    [Message] marker interface, [DiscardRequests], the [connection]
    adapter with its four methods, and the [sshConn] metadata holder with
    [dup].  Collaborators that live in other files of the package (the
    handshake transport, the wire codec, [net.Conn], [Request.Reply]) are
    external calls: a method is a small tree of such calls, run against
    an arbitrary handler, and every run records the calls it made. *)

From Stdlib Require Import String Ascii List NArith Lia DecimalString Decimal DecimalN DecimalPos.
From stdpp Require Import base gmap list strings.
Import ListNotations.
Local Open Scope string_scope.
Local Open Scope list_scope.

(** ** Go values that cross this file *)

Abbreviation bytes := (list Byte.byte).

(** [uint32(x)]: the conversion keeps the low 32 bits. *)
Definition uint32_of (n : N) : N := (n mod 2 ^ 32)%N.

(** The struct types of the package that this file names.  The fourteen
    aliased at lines 101-114 carry [isMessageMarker]; [disconnectMsg] is
    built by [Disconnect]; [otherMsg] stands for every further struct of
    the package the codec may produce (kexInitMsg, serviceRequestMsg, ...). *)
Inductive structType :=
| globalRequestMsg | globalRequestSuccessMsg | globalRequestFailureMsg
| channelOpenMsg | channelOpenConfirmMsg | channelOpenFailureMsg
| channelDataMsg | channelExtendedDataMsg | windowAdjustMsg
| channelEOFMsg | channelRequestMsg | channelRequestSuccessMsg
| channelRequestFailureMsg | channelCloseMsg
| disconnectMsg
| otherMsg (name : string).

Definition structName (t : structType) : string :=
  match t with
  | globalRequestMsg => "globalRequestMsg"
  | globalRequestSuccessMsg => "globalRequestSuccessMsg"
  | globalRequestFailureMsg => "globalRequestFailureMsg"
  | channelOpenMsg => "channelOpenMsg"
  | channelOpenConfirmMsg => "channelOpenConfirmMsg"
  | channelOpenFailureMsg => "channelOpenFailureMsg"
  | channelDataMsg => "channelDataMsg"
  | channelExtendedDataMsg => "channelExtendedDataMsg"
  | windowAdjustMsg => "windowAdjustMsg"
  | channelEOFMsg => "channelEOFMsg"
  | channelRequestMsg => "channelRequestMsg"
  | channelRequestSuccessMsg => "channelRequestSuccessMsg"
  | channelRequestFailureMsg => "channelRequestFailureMsg"
  | channelCloseMsg => "channelCloseMsg"
  | disconnectMsg => "disconnectMsg"
  | otherMsg name => name
  end.

(** Lines 120-133: the pointer types with an [isMessageMarker] method. *)
Definition isMessageMarker (t : structType) : bool :=
  match t with
  | disconnectMsg | otherMsg _ => false
  | _ => true
  end.

(** Field values of the wire structs. *)
Inductive field :=
| FUint32 (n : N)
| FString (s : string)
| FBytes (b : bytes)
| FBool (b : bool).

(** An interface value ([interface{}] or [Message]): nil, or a pointer to
    a struct of the package together with the struct's fields. *)
Inductive any :=
| anil
| aptr (t : structType) (fs : list field).

(** [&disconnectMsg{Reason: r, Message: m}] *)
Definition new_disconnectMsg (r : N) (m : string) : any :=
  aptr disconnectMsg [FUint32 r; FString m].

(** The type assertion [v.(Message)] in its comma-ok form: the asserted
    value and [true] when the dynamic type has the marker method, the
    zero value of [Message] (nil) and [false] otherwise. *)
Definition assert_Message (v : any) : any * bool :=
  match v with
  | anil => (anil, false)
  | aptr t _ => if isMessageMarker t then (v, true) else (anil, false)
  end.

(** A non-nil [error].  [errorString] is what [fmt.Errorf] builds here;
    [foreignError] is an error handed over by a collaborator, opaque to
    this file. *)
Inductive error :=
| errorString (text : string)
| foreignError (origin : string) (code : N).

(** An [error] result, nil being [None]. *)
Abbreviation error_or_nil := (option error).

(** ** The fragment of package fmt this file uses *)

Module fmt.

(** %d of an unsigned integer. *)
Definition decimal (n : N) : string := NilZero.string_of_uint (N.to_uint n).

Inductive operand :=
| OString (s : string)
| OUint (tyname : string) (stringer : option (N -> string)) (n : N)
    (* an unsigned integer of a named type, with its String method if
       the type has one *)
| OIface (v : any).

Fixpoint join (sep : string) (l : list string) : string :=
  match l with
  | [] => ""
  | [x] => x
  | x :: rest => x +:+ sep +:+ join sep rest
  end.

(** %T *)
Definition typeName (a : operand) : string :=
  match a with
  | OString _ => "string"
  | OUint tyname _ _ => tyname
  | OIface anil => "<nil>"
  | OIface (aptr t _) => "*ssh." +:+ structName t
  end.

Definition badVerb (verb : ascii) (ty value : string) : string :=
  "%!" +:+ String verb ("(" +:+ ty +:+ "=" +:+ value +:+ ")").

Definition is_verb (verb : ascii) (c : string) : bool :=
  String.eqb (String verb "") c.

Definition printField (verb : ascii) (f : field) : string :=
  match f with
  | FUint32 n =>
      if is_verb verb "s" then badVerb verb "uint32" (decimal n) else decimal n
  | FString s =>
      if is_verb verb "d" then badVerb verb "string" s else s
  | FBytes b =>
      if is_verb verb "s" then string_of_list_byte b
      else "[" +:+ join " " (map (fun x => decimal (Byte.to_N x)) b) +:+ "]"
  | FBool b =>
      let text := if b then "true" else "false" in
      if is_verb verb "v" then text else badVerb verb "bool" text
  end.

(** One operand under one of the verbs s, d, v, T.  Flags, widths and
    the other verbs of package fmt do not occur in this file and are
    not modelled: any other verb character is reported the way fmt
    reports a verb that does not fit its operand. *)
Definition printArg (verb : ascii) (a : operand) : string :=
  if is_verb verb "T" then typeName a else
  match a with
  | OString s =>
      if is_verb verb "s" || is_verb verb "v" then s
      else badVerb verb "string" s
  | OUint tyname stringer n =>
      if is_verb verb "d" then decimal n
      else match stringer with
           | Some f =>
               if is_verb verb "s" || is_verb verb "v" then f n
               else badVerb verb tyname (f n)
           | None =>
               if is_verb verb "v" then decimal n
               else badVerb verb tyname (decimal n)
           end
  | OIface anil =>
      if is_verb verb "v" then "<nil>" else "%!" +:+ String verb "(<nil>)"
  | OIface (aptr _ fs) =>
      "&{" +:+ join " " (map (printField verb) fs) +:+ "}"
  end.

Definition extra (args : list operand) : string :=
  match args with
  | [] => ""
  | _ =>
      "%!(EXTRA "
      +:+ join ", " (map (fun a =>
                           match a with
                           | OIface anil => "<nil>"
                           | _ => typeName a +:+ "=" +:+ printArg "v" a
                           end) args)
      +:+ ")"
  end.

(** [fmt.Sprintf(format, args...)] *)
Fixpoint Sprintf (format : string) (args : list operand) : string :=
  match format with
  | EmptyString => extra args
  | String c rest =>
      if Ascii.eqb c "%" then
        match rest with
        | EmptyString => "%!(NOVERB)" +:+ extra args
        | String verb rest' =>
            if Ascii.eqb verb "%" then String "%" (Sprintf rest' args)
            else match args with
                 | a :: args' => printArg verb a +:+ Sprintf rest' args'
                 | [] => "%!" +:+ String verb ("(MISSING)" +:+ Sprintf rest' [])
                 end
        end
      else String c (Sprintf rest args)
  end.

(** [fmt.Errorf(format, args...)]: an error whose text is the
    formatted string. *)
Definition Errorf (format : string) (args : list operand) : error :=
  errorString (Sprintf format args).

End fmt.

(** ** The error taxonomy (lines 12-54) *)

(** [RejectionReason] is declared in the channel code of the package as a
    [uint32] with a [String] method; only the type and the existence of
    the method matter here, so the method is an interface parameter. *)
Definition RejectionReason := N.

Class RejectionReasonText := RejectionReason_String : RejectionReason -> string.

Module OpenChannelError.

Record t := mk { Reason : RejectionReason; Message : string }.

(** Lines 19-21. *)
Definition Error `{RejectionReasonText} (e : t) : string :=
  fmt.Sprintf "ssh: rejected: %s (%s)"
    [fmt.OUint "ssh.RejectionReason" (Some RejectionReason_String) (Reason e);
     fmt.OString (Message e)].

End OpenChannelError.

(** Line 25: [type DisconnectReason uint32]. *)
Definition DisconnectReason := N.

(** Lines 27-43.  Only the first constant of the block is declared with
    the type; the others are untyped integer constants, as each has its
    own initialiser. *)
Definition HostNotAllowedToConnect : DisconnectReason := 1%N.
Definition ProtocolError : N := 2%N.
Definition KeyExchangeFailed : N := 3%N.
(* 4 is reserved for future use. *)
Definition MacError : N := 5%N.
Definition CompressionError : N := 6%N.
Definition ServiceNotAvailable : N := 7%N.
Definition ProtocolVersionNotSupported : N := 8%N.
Definition HostKeyNotVerifiable : N := 9%N.
Definition ConnectionLost : N := 10%N.
Definition ByApplication : N := 11%N.
Definition TooManyConnections : N := 12%N.
Definition AuthCancelledByUser : N := 13%N.
Definition NoMoreAuthMethodsAvailable : N := 14%N.
Definition IllegalUserName : N := 15%N.

(** The const block as a table, in declaration order. *)
Definition DisconnectReason_constants : list (string * N) :=
  [ ("HostNotAllowedToConnect", HostNotAllowedToConnect);
    ("ProtocolError", ProtocolError);
    ("KeyExchangeFailed", KeyExchangeFailed);
    ("MacError", MacError);
    ("CompressionError", CompressionError);
    ("ServiceNotAvailable", ServiceNotAvailable);
    ("ProtocolVersionNotSupported", ProtocolVersionNotSupported);
    ("HostKeyNotVerifiable", HostKeyNotVerifiable);
    ("ConnectionLost", ConnectionLost);
    ("ByApplication", ByApplication);
    ("TooManyConnections", TooManyConnections);
    ("AuthCancelledByUser", AuthCancelledByUser);
    ("NoMoreAuthMethodsAvailable", NoMoreAuthMethodsAvailable);
    ("IllegalUserName", IllegalUserName) ].

(** The name bound to a code, if any. *)
Definition DisconnectReason_name (code : N) : option string :=
  fst <$> find (fun '(_, v) => N.eqb v code) DisconnectReason_constants.

Module DisconnectError.

Record t := mk { Reason : DisconnectReason; Message : string }.

(** Lines 52-54. *)
Definition Error (d : t) : string :=
  fmt.Sprintf "ssh: disconnect, reason %d: %s"
    [fmt.OUint "ssh.DisconnectReason" None (Reason d);
     fmt.OString (Message d)].

End DisconnectError.

(** ** Byte slices and the heap they live in

    A [[]byte] is a window on a backing array: the array, the offset of
    the window, its length and its capacity.  The heap maps array
    addresses to array contents, so two slices can share bytes only when
    they name the same address. *)

Abbreviation loc := positive.
Abbreviation heap := (gmap loc (list Byte.byte)).

Inductive slice :=
| snil
| smk (arr : loc) (off len cap : nat).

(** [len(s)] *)
Definition len (s : slice) : nat :=
  match s with
  | snil => 0
  | smk _ _ n _ => n
  end.

(** The bytes a slice shows, when it is well formed in the heap. *)
Definition slice_get (h : heap) (s : slice) : option bytes :=
  match s with
  | snil => Some []
  | smk a off n _ =>
      match h !! a with
      | Some contents =>
          if decide (off + n <= length contents)
          then Some (take n (drop off contents))
          else None
      | None => None
      end
  end.

(** [s[i] = v]; [None] is the index-out-of-range panic. *)
Definition slice_set (h : heap) (s : slice) (i : nat) (v : Byte.byte) : option heap :=
  match s with
  | snil => None
  | smk a off n _ =>
      if decide (i < n) then
        match h !! a with
        | Some contents => Some (<[a := <[off + i := v]> contents]> h)
        | None => None
        end
      else None
  end.

(** A run of element writes through one slice. *)
Fixpoint slice_sets (h : heap) (s : slice) (ws : list (nat * Byte.byte)) : option heap :=
  match ws with
  | [] => Some h
  | (i, v) :: ws' =>
      match slice_set h s i v with
      | Some h' => slice_sets h' s ws'
      | None => None
      end
  end.

(** [make([]byte, n)]: a zeroed array at an address the heap does not
    use yet, and the slice covering all of it.  (For n = 0 the runtime
    may hand out one shared address; no element can be read or written
    through an empty slice, so the difference cannot be observed.) *)
Definition make (n : nat) (h : heap) : slice * heap :=
  let a := fresh (dom h) in
  (smk a 0 n n, <[a := replicate n Byte.x00]> h).

(** [copy(dst, src)]: the first min(len(dst), len(src)) elements of
    [src] overwrite the start of [dst]; the count is returned. *)
Definition copy (dst src : slice) (h : heap) : nat * heap :=
  match dst, slice_get h src with
  | smk a off n _, Some data =>
      match h !! a with
      | Some contents =>
          let k := Nat.min n (length data) in
          (k, <[a := take off contents ++ take k data ++ drop (off + k) contents]> h)
      | None => (0, h)
      end
  | _, _ => (0, h)
  end.

(** Lines 229-233. *)
Definition dup (src : slice) (h : heap) : slice * heap :=
  let '(dst, h1) := make (len src) h in
  let '(_, h2) := copy dst src h1 in
  (dst, h2).

(** ** The metadata holder (lines 218-261) *)

Abbreviation handle := nat.

(** [net.Addr], by its printed form. *)
Definition Addr := string.

Record sshConn := mk_sshConn {
  conn : handle;                (* net.Conn *)
  user : string;
  sessionID : slice;
  clientVersion : slice;
  serverVersion : slice
}.

Definition User (c : sshConn) : string := user c.

Definition SessionID (c : sshConn) (h : heap) : slice * heap :=
  dup (sessionID c) h.

Definition ClientVersion (c : sshConn) (h : heap) : slice * heap :=
  dup (clientVersion c) h.

Definition ServerVersion (c : sshConn) (h : heap) : slice * heap :=
  dup (serverVersion c) h.

(** The three byte-sequence getters, with the field each one reads. *)
Inductive byte_getter := GetSessionID | GetClientVersion | GetServerVersion.

Definition getter_method (g : byte_getter) : sshConn -> heap -> slice * heap :=
  match g with
  | GetSessionID => SessionID
  | GetClientVersion => ClientVersion
  | GetServerVersion => ServerVersion
  end.

Definition getter_field (g : byte_getter) : sshConn -> slice :=
  match g with
  | GetSessionID => sessionID
  | GetClientVersion => clientVersion
  | GetServerVersion => serverVersion
  end.

(** ** Calls into collaborators

    [Request] is declared with the multiplexer; this file reads its
    [WantReply] flag and calls its [Reply] method.  [req_id] stands for
    the rest of the struct. *)
Record Request := mk_Request { req_id : nat; WantReply : bool }.

(** The operations of other files that this file invokes, each with the
    type of what it hands back. *)
Inductive call : Type -> Type :=
| transport_writePacket (t : handle) (packet : bytes) : call error_or_nil
| transport_readPacket (t : handle) : call (bytes * error_or_nil)
| conn_Close (n : handle) : call error_or_nil
| conn_RemoteAddr (n : handle) : call Addr
| conn_LocalAddr (n : handle) : call Addr
| Request_Reply (req : Request) (ok : bool) (payload : option bytes) : call error_or_nil
    (* payload [None] is the nil slice *)
| chan_receive (ch : handle) : call (option (option Request)).
    (* one iteration of [range] over a [<-chan *Request]: [None] once the
       channel is closed and drained, else the next pointer, itself
       possibly nil *)

(** A method body: it returns, panics, or makes a call and goes on with
    the answer.  [OutOfFuel] cuts the one loop of the file. *)
Inductive Prog (A : Type) : Type :=
| Ret (a : A)
| Panic (why : string)
| OutOfFuel
| Do {X : Type} (c : call X) (k : X -> Prog A).

Arguments Ret {A} a.
Arguments Panic {A} why.
Arguments OutOfFuel {A}.
Arguments Do {A X} c k.

Fixpoint bind {A B} (p : Prog A) (f : A -> Prog B) : Prog B :=
  match p with
  | Ret a => f a
  | Panic why => Panic why
  | OutOfFuel => OutOfFuel
  | Do c k => Do c (fun x => bind (k x) f)
  end.

(** [x ← p; q] and [p;; q] below are stdpp's notations for [bind]. *)
#[global] Instance Prog_ret : MRet Prog := @Ret.
#[global] Instance Prog_bind : MBind Prog := fun A B f p => bind p f.

Definition invoke {X} (c : call X) : Prog X := Do c Ret.

(** What a run observes: the call and its answer. *)
Inductive event :=
| Called {X : Type} (c : call X) (answer : X).

Inductive outcome (A : Type) :=
| Returned (a : A)
| Panicked (why : string)
| Exhausted.

Arguments Returned {A} a.
Arguments Panicked {A} why.
Arguments Exhausted {A}.

(** A collaborator environment: how each call answers and changes the
    world. *)
Definition handler (W : Type) := forall X, call X -> W -> X * W.

Fixpoint run {W A} (h : handler W) (p : Prog A) (w : W)
  : outcome A * W * list event :=
  match p with
  | Ret a => (Returned a, w, [])
  | Panic why => (Panicked why, w, [])
  | OutOfFuel => (Exhausted, w, [])
  | Do c k =>
      let '(x, w1) := h _ c w in
      let '(o, w2, tr) := run h (k x) w1 in
      (o, w2, Called c x :: tr)
  end.

(** ** The wire codec, as this file sees it

    [Marshal(msg interface{}) []byte] has no error result: a value it
    cannot serialise (a nil message, for one) makes it panic, which is
    [None] here.  [decode(packet) (interface{}, error)]. *)
Class Codec := {
  Marshal : any -> option bytes;
  decode : bytes -> any * error_or_nil
}.

Definition Marshal_or_panic `{Codec} (msg : any) : Prog bytes :=
  match Marshal msg with
  | Some packet => Ret packet
  | None => Panic "ssh: Marshal"
  end.

(** ** DiscardRequests (lines 168-176) *)

Fixpoint DiscardRequests (fuel : nat) (in_ : handle) : Prog unit :=
  match fuel with
  | 0 => OutOfFuel
  | S fuel' =>
      next ← invoke (chan_receive in_);
      match next with
      | None => Ret tt
      | Some None => Panic "invalid memory address or nil pointer dereference"
      | Some (Some req) =>
          (if WantReply req
           then invoke (Request_Reply req false None);; Ret tt
           else Ret tt);;
          DiscardRequests fuel' in_
      end
  end.

(** ** The connection adapter (lines 178-216) *)

Record connection := mk_connection {
  transport : handle;           (* *handshakeTransport *)
  connection_sshConn : sshConn;
  connection_mux : handle       (* *mux *)
}.

(** Lines 187-190. *)
Definition SendMessage `{Codec} (c : connection) (msg : any) : Prog error_or_nil :=
  packet ← Marshal_or_panic msg;
  invoke (transport_writePacket (transport c) packet).

(** Lines 192-207.  The [if] statement declares a new [msg], the result
    of the type assertion, which is the one both branches use. *)
Definition ReceiveMessage `{Codec} (c : connection) : Prog (any * error_or_nil) :=
  '(packet, err) ← invoke (transport_readPacket (transport c));
  match err with
  | Some e => Ret (anil, Some e)
  | None =>
      let '(msg, err) := decode packet in
      match err with
      | Some e => Ret (anil, Some e)
      | None =>
          let '(msg, ok) := assert_Message msg in
          if negb ok
          then Ret (anil, Some (fmt.Errorf "Not a valid connection message: %T"
                                  [fmt.OIface msg]))
          else Ret (msg, None)
      end
  end.

(** Lines 209-212. *)
Definition Disconnect `{Codec} (c : connection) (reason : DisconnectReason)
    (message : string) : Prog error_or_nil :=
  packet ← Marshal_or_panic (new_disconnectMsg (uint32_of reason) message);
  invoke (transport_writePacket (transport c) packet).

(** Lines 214-216. *)
Definition Close (c : connection) : Prog error_or_nil :=
  invoke (conn_Close (conn (connection_sshConn c))).

(** Lines 239-249: the methods of [sshConn] that go to the socket. *)
Definition sshConn_RemoteAddr (c : sshConn) : Prog Addr :=
  invoke (conn_RemoteAddr (conn c)).

Definition sshConn_Close (c : sshConn) : Prog error_or_nil :=
  invoke (conn_Close (conn c)).

Definition sshConn_LocalAddr (c : sshConn) : Prog Addr :=
  invoke (conn_LocalAddr (conn c)).

(** ** Reading a trace *)

(** The [Reply] calls of a run, in order, with their arguments. *)
Definition reply_of (e : event) : option (Request * bool * option bytes) :=
  match e with
  | Called c _ =>
      match c with
      | Request_Reply req ok payload => Some (req, ok, payload)
      | _ => None
      end
  end.

(** "Refused, no payload": the arguments of [req.Reply(false, nil)]. *)
Definition refusal (req : Request) : Request * bool * option bytes :=
  (req, false, None).

(** The items a run took from channel [ch], in order. *)
Definition received_of (ch : handle) (e : event) : option (option Request) :=
  match e with
  | @Called X c answer =>
      match c in call X0 return X0 -> option (option Request) with
      | chan_receive ch' => fun a => if decide (ch' = ch) then a else None
      | _ => fun _ => None
      end answer
  end.

(** The packets a run handed to transport [t], in order. *)
Definition written_of (t : handle) (e : event) : option bytes :=
  match e with
  | Called c _ =>
      match c with
      | transport_writePacket t' packet => if decide (t' = t) then Some packet else None
      | _ => None
      end
  end.

(** ** A scripted environment

    A concrete collaborator environment to run the methods in: channels
    hold the items their producer sent before closing them, transports
    queue inbound packets and log outbound ones, and a script fixes what
    each fallible collaborator answers. *)

Record Script := mk_Script {
  write_result : handle -> bytes -> error_or_nil;
  close_result : handle -> error_or_nil;
  reply_result : Request -> error_or_nil
}.

Record World := mk_World {
  pending : gmap handle (list (option Request));
  inbound : gmap handle (list bytes);
  written : list (handle * bytes);
  replied : list (Request * bool * option bytes);
  closed : list handle
}.

Definition io_EOF : error := foreignError "EOF" 0.

Definition scripted (s : Script) : handler World :=
  fun X c =>
    match c in call X0 return World -> X0 * World with
    | transport_writePacket t packet => fun w =>
        (write_result s t packet,
         mk_World (pending w) (inbound w) (written w ++ [(t, packet)])
           (replied w) (closed w))
    | transport_readPacket t => fun w =>
        match inbound w !! t with
        | Some (packet :: rest) =>
            ((packet, None),
             mk_World (pending w) (<[t := rest]> (inbound w)) (written w)
               (replied w) (closed w))
        | _ => (([], Some io_EOF), w)
        end
    | conn_Close n => fun w =>
        (close_result s n,
         mk_World (pending w) (inbound w) (written w) (replied w) (closed w ++ [n]))
    | conn_RemoteAddr n => fun w => ("remote", w)
    | conn_LocalAddr n => fun w => ("local", w)
    | Request_Reply req ok payload => fun w =>
        (reply_result s req,
         mk_World (pending w) (inbound w) (written w)
           (replied w ++ [(req, ok, payload)]) (closed w))
    | chan_receive ch => fun w =>
        match pending w !! ch with
        | Some (item :: rest) =>
            (Some item,
             mk_World (<[ch := rest]> (pending w)) (inbound w) (written w)
               (replied w) (closed w))
        | _ => (None, w)
        end
    end.

(** A script under which every collaborator succeeds. *)
Definition all_succeed : Script :=
  mk_Script (fun _ _ => None) (fun _ => None) (fun _ => None).

(** A script under which every write fails with the same error. *)
Definition broken_pipe : error := foreignError "write: broken pipe" 32.

Definition writes_fail : Script :=
  mk_Script (fun _ _ => Some broken_pipe) (fun _ => None) (fun _ => None).

Definition empty_World : World := mk_World ∅ ∅ [] [] [].

(** A stand-in codec for the examples.  A packet is the message number
    followed by the fields: integers big-endian on four bytes, strings
    and byte strings behind their length, booleans on one byte. *)
Definition msgNumber (t : structType) : option N :=
  match t with
  | disconnectMsg => Some 1
  | globalRequestMsg => Some 80
  | globalRequestSuccessMsg => Some 81
  | globalRequestFailureMsg => Some 82
  | channelOpenMsg => Some 90
  | channelOpenConfirmMsg => Some 91
  | channelOpenFailureMsg => Some 92
  | windowAdjustMsg => Some 93
  | channelDataMsg => Some 94
  | channelExtendedDataMsg => Some 95
  | channelEOFMsg => Some 96
  | channelCloseMsg => Some 97
  | channelRequestMsg => Some 98
  | channelRequestSuccessMsg => Some 99
  | channelRequestFailureMsg => Some 100
  | otherMsg _ => None
  end%N.

Definition numbered_types : list structType :=
  [ disconnectMsg; globalRequestMsg; globalRequestSuccessMsg;
    globalRequestFailureMsg; channelOpenMsg; channelOpenConfirmMsg;
    channelOpenFailureMsg; windowAdjustMsg; channelDataMsg;
    channelExtendedDataMsg; channelEOFMsg; channelCloseMsg;
    channelRequestMsg; channelRequestSuccessMsg; channelRequestFailureMsg ].

Definition byte_of_N (n : N) : Byte.byte :=
  default Byte.x00 (Byte.of_N (n mod 256)%N).

Definition put_uint32 (n : N) : bytes :=
  [ byte_of_N (n / 2 ^ 24); byte_of_N (n / 2 ^ 16);
    byte_of_N (n / 2 ^ 8); byte_of_N n ].

Definition put_field (f : field) : bytes :=
  match f with
  | FUint32 n => put_uint32 n
  | FString s =>
      put_uint32 (N.of_nat (String.length s)) ++ list_byte_of_string s
  | FBytes b => put_uint32 (N.of_nat (length b)) ++ b
  | FBool b => [ if b then Byte.x01 else Byte.x00 ]
  end.

#[local] Instance sample_codec : Codec := {|
  Marshal msg :=
    match msg with
    | anil => None
    | aptr t fs =>
        match msgNumber t with
        | Some n => Some (byte_of_N n :: concat (map put_field fs))
        | None => None
        end
    end;
  decode packet :=
    match packet with
    | [] => (anil, Some (foreignError "ssh: empty packet" 0))
    | b :: rest =>
        match find (fun t => bool_decide (msgNumber t = Some (Byte.to_N b)))
                numbered_types with
        | Some t => (aptr t [FBytes rest], None)
        | None =>
            (anil, Some (foreignError "ssh: unexpected message type" (Byte.to_N b)))
        end
    end
|}.

(** The packets of the examples: [disconnectMsg{11, "bye"}] and
    [channelEOFMsg{PeersID: 0}] under the stand-in codec. *)
Definition bye_packet : bytes :=
  [ Byte.x01; Byte.x00; Byte.x00; Byte.x00; Byte.x0b;
    Byte.x00; Byte.x00; Byte.x00; Byte.x03; Byte.x62; Byte.x79; Byte.x65 ].

Definition eof_message : any := aptr channelEOFMsg [FUint32 0].

Definition eof_packet : bytes :=
  [ Byte.x60; Byte.x00; Byte.x00; Byte.x00; Byte.x00 ].

(** A metadata holder whose session hash is the last three bytes of a
    four-byte array at address 1. *)
Definition session_heap : heap :=
  {[ 1%positive := [Byte.x01; Byte.x02; Byte.x03; Byte.x04] ]}.

Definition session_conn : sshConn :=
  mk_sshConn 2 "user" (smk 1 1 3 3) snil snil.

Definition session_hash : bytes := [Byte.x02; Byte.x03; Byte.x04].

(** A stand-in for [RejectionReason.String]. *)
Definition sample_reason_text : RejectionReasonText :=
  fun r => "reason " +:+ fmt.decimal r.

(** A connection over transport 1, socket 2 and multiplexer 3, with no
    metadata recorded. *)
Definition sample_connection : connection :=
  mk_connection 1 (mk_sshConn 2 "user" snil snil snil) 3.

(** ** The exported message types (lines 101-114)

    Each line is an alias declaration: the exported name and the struct
    type it renames, in the order of the source. *)
Definition exported_aliases : list (string * structType) :=
  [ ("GlobalRequestMsg", globalRequestMsg);
    ("GlobalRequestSuccessMsg", globalRequestSuccessMsg);
    ("GlobalRequestFailureMsg", globalRequestFailureMsg);
    ("ChannelOpenMsg", channelOpenMsg);
    ("ChannelOpenConfirmMsg", channelOpenConfirmMsg);
    ("ChannelOpenFailureMsg", channelOpenFailureMsg);
    ("ChannelDataMsg", channelDataMsg);
    ("ChannelExtendedDataMsg", channelExtendedDataMsg);
    ("ChannelWindowAdjustMsg", windowAdjustMsg);
    ("ChannelEOFMsg", channelEOFMsg);
    ("ChannelRequestMsg", channelRequestMsg);
    ("ChannelRequestSuccessMsg", channelRequestSuccessMsg);
    ("ChannelRequestFailureMsg", channelRequestFailureMsg);
    ("ChannelCloseMsg", channelCloseMsg) ].

#[global] Instance structType_eq_dec : EqDecision structType.
Proof. solve_decision. Defined.

(** ** More ways to read a trace *)

(** The calls [DiscardRequests] is written to make: a receive on its
    channel, or [Reply(false, nil)] on a request that wants a reply. *)
Definition is_drain_call (ch : handle) (e : event) : bool :=
  match e with
  | Called c _ =>
      match c with
      | chan_receive ch' => bool_decide (ch' = ch)
      | Request_Reply req ok payload =>
          WantReply req && negb ok
          && match payload with None => true | Some _ => false end
      | _ => false
      end
  end.

(** The socket closes of a run, in order. *)
Definition closed_of (e : event) : option handle :=
  match e with
  | Called c _ =>
      match c with
      | conn_Close n => Some n
      | _ => None
      end
  end.

(** Two more disconnect errors for the examples: reason 1 with a message
    that begins like the tail of a longer reason, and reason 11. *)
Definition short_reason_error : DisconnectError.t :=
  DisconnectError.mk HostNotAllowedToConnect "1: bye".

Definition long_reason_error : DisconnectError.t :=
  DisconnectError.mk ByApplication ": bye".

(** A metadata holder with a session hash and a client version that are
    two windows on the same array. *)
Definition shared_heap : heap :=
  {[ 1%positive := [Byte.x01; Byte.x02; Byte.x03; Byte.x04] ]}.

Definition shared_conn : sshConn :=
  mk_sshConn 2 "user" (smk 1 0 3 4) (smk 1 2 2 2) snil.

(** * Properties *)

(** ** Formatting *)

Lemma append_empty_r (s : string) : s +:+ "" = s.
Proof.
  induction s as [|c s IH]; [reflexivity |].
  change (String c (s +:+ "") = String c s). now rewrite IH.
Qed.

(** [decimal] prints the number: reading the digits back gives it. *)
Lemma decimal_reads_back (n : N) :
  N.of_uint <$> NilZero.uint_of_string (fmt.decimal n) = Some n.
Proof.
  unfold fmt.decimal.
  rewrite NilZero.usu.
  - simpl. now rewrite DecimalN.Unsigned.of_to.
  - destruct n as [|p]; simpl; [discriminate |].
    apply DecimalPos.Unsigned.to_uint_nonnil.
Qed.

Lemma decimal_injective (n m : N) : fmt.decimal n = fmt.decimal m -> n = m.
Proof.
  intros Heq.
  pose proof (decimal_reads_back n) as Hn.
  rewrite Heq, decimal_reads_back in Hn. congruence.
Qed.

(** C2 (as the code has it): for every rejection reason [r], whatever its
    [String] method, and every message [m], [Error()] of
    [OpenChannelError{Reason: r, Message: m}] is exactly
    "ssh: rejected: <reason text> (<m>)": the package prefix "ssh: ",
    then the text the claim describes, and nothing after it. *)
Theorem OpenChannelError_Error_format :
  forall (text : RejectionReasonText) (r : RejectionReason) (m : string),
    OpenChannelError.Error (OpenChannelError.mk r m)
    = "ssh: rejected: " +:+ RejectionReason_String r +:+ " (" +:+ m +:+ ")".
Proof.
  intros text r m. reflexivity.
Qed.

(** C2, as stated, fails: for reason 1 and message "denied" the method
    does not return the bare "rejected: <reason> (denied)". *)
Lemma OpenChannelError_Error_not_bare :
  @OpenChannelError.Error sample_reason_text (OpenChannelError.mk 1%N "denied")
  <> "rejected: " +:+ sample_reason_text 1%N +:+ " (" +:+ "denied" +:+ ")".
Proof. vm_compute. discriminate. Qed.

(** C3 (as the code has it): for every disconnect reason [r] and message
    [m], [Error()] of [DisconnectError{Reason: r, Message: m}] is exactly
    "ssh: disconnect, reason <r in decimal>: <m>": the package prefix
    "ssh: ", then the text the claim describes, and nothing after it. *)
Theorem DisconnectError_Error_format :
  forall (r : DisconnectReason) (m : string),
    DisconnectError.Error (DisconnectError.mk r m)
    = "ssh: disconnect, reason " +:+ fmt.decimal r +:+ ": " +:+ m.
Proof.
  intros r m.
  transitivity ("ssh: disconnect, reason " +:+ fmt.decimal r +:+ ": " +:+ (m +:+ "")).
  - reflexivity.
  - now rewrite append_empty_r.
Qed.

(** C3, as stated, fails: for reason 11 and message "bye" the method does
    not return the bare "disconnect, reason 11: bye". *)
Lemma DisconnectError_Error_not_bare :
  DisconnectError.Error (DisconnectError.mk ByApplication "bye")
  <> "disconnect, reason " +:+ fmt.decimal 11 +:+ ": " +:+ "bye".
Proof. vm_compute. discriminate. Qed.

(** ** The disconnect reasons *)

Lemma DisconnectReason_values :
  map snd DisconnectReason_constants
  = [1; 2; 3; 5; 6; 7; 8; 9; 10; 11; 12; 13; 14; 15]%N.
Proof. reflexivity. Qed.

(** A code is bound to a name exactly when it lies in 1..3 or 5..15. *)
Lemma DisconnectReason_name_defined (v : N) :
  bool_decide (is_Some (DisconnectReason_name v))
  = ((1 <=? v) && (v <=? 3) || (5 <=? v) && (v <=? 15))%N.
Proof.
  destruct (N.le_gt_cases 16 v) as [Hbig | Hsmall].
  - assert (Hnone : DisconnectReason_name v = None).
    { unfold DisconnectReason_name, DisconnectReason_constants. cbn [find].
      repeat match goal with
             | |- context [N.eqb ?a v] =>
                 destruct (N.eqb_spec a v) as [Heq | _];
                 [ exfalso; revert Heq; vm_compute (a); lia | ]
             end.
      reflexivity. }
    rewrite Hnone.
    replace (v <=? 3)%N with false by (symmetry; apply N.leb_gt; lia).
    replace (v <=? 15)%N with false by (symmetry; apply N.leb_gt; lia).
    now rewrite !andb_false_r.
  - assert (Hcases : In v [0; 1; 2; 3; 4; 5; 6; 7; 8; 9; 10; 11; 12; 13; 14; 15]%N).
    { cbn [In].
      destruct v as [|p]; [now left |].
      do 4 (destruct p as [p | p |]; try lia); tauto. }
    cbn [In] in Hcases.
    repeat (destruct Hcases as [<- | Hcases]; [reflexivity |]).
    contradiction.
Qed.

(** C6 (as the code has it): the const block declares fourteen named
    codes, not fifteen.  Their values are exactly 1 through 3 and 5
    through 15, each bound once; 4 is bound to no name; and the names
    are the standard disconnect causes, HostNotAllowedToConnect = 1
    through IllegalUserName = 15. *)
Theorem DisconnectReason_enumeration :
  length DisconnectReason_constants = 14
  /\ map snd DisconnectReason_constants
     = [1; 2; 3; 5; 6; 7; 8; 9; 10; 11; 12; 13; 14; 15]%N
  /\ (forall v : N,
        bool_decide (is_Some (DisconnectReason_name v))
        = ((1 <=? v) && (v <=? 3) || (5 <=? v) && (v <=? 15))%N)
  /\ NoDup (map snd DisconnectReason_constants)
  /\ NoDup (map fst DisconnectReason_constants)
  /\ DisconnectReason_name 4 = None
  /\ DisconnectReason_name <$> [1; 2; 3; 5; 6; 7; 8; 9; 10; 11; 12; 13; 14; 15]%N
     = Some <$> [ "HostNotAllowedToConnect"; "ProtocolError"; "KeyExchangeFailed";
                  "MacError"; "CompressionError"; "ServiceNotAvailable";
                  "ProtocolVersionNotSupported"; "HostKeyNotVerifiable";
                  "ConnectionLost"; "ByApplication"; "TooManyConnections";
                  "AuthCancelledByUser"; "NoMoreAuthMethodsAvailable";
                  "IllegalUserName" ].
Proof.
  split; [reflexivity |].
  split; [apply DisconnectReason_values |].
  split; [apply DisconnectReason_name_defined |].
  split; [apply (bool_decide_unpack _); vm_compute; exact I |].
  split; [apply (bool_decide_unpack _); vm_compute; exact I |].
  split; reflexivity.
Qed.

(** C6, as stated, fails on the count: the enumeration does not have
    fifteen codes. *)
Lemma DisconnectReason_not_fifteen :
  length DisconnectReason_constants <> 15.
Proof. vm_compute. discriminate. Qed.

(** ** Running method bodies *)

Section Runs.
Context {W : Type} (h : handler W).

Lemma run_invoke {X} (c : call X) (w : W) :
  run h (invoke c) w
  = let '(x, w1) := h _ c w in (Returned x, w1, [Called c x]).
Proof. cbn. now destruct (h _ c w). Qed.

(** A sequence runs its first part, then the rest in the world the first
    part left, and the trace is the two traces in order; a panic in the
    first part ends the run. *)
Lemma run_bind {A B} (p : Prog A) (f : A -> Prog B) (w : W) :
  run h (p ≫= f) w
  = match run h p w with
    | (Returned a, w1, tr1) =>
        let '(o, w2, tr2) := run h (f a) w1 in (o, w2, tr1 ++ tr2)
    | (Panicked why, w1, tr1) => (Panicked why, w1, tr1)
    | (Exhausted, w1, tr1) => (Exhausted, w1, tr1)
    end.
Proof.
  revert w. induction p as [a | why | | X c k IH]; intros w.
  - cbn. now destruct (run h (f a) w) as [[o w2] tr2].
  - reflexivity.
  - reflexivity.
  - change (run h (Do c k ≫= f) w)
      with (let '(x, w1) := h _ c w in
            let '(o, w2, tr) := run h (k x ≫= f) w1 in
            (o, w2, Called c x :: tr)).
    cbn [run]. destruct (h _ c w) as [x w1]. rewrite IH.
    destruct (run h (k x) w1) as [[[a | why |] w2] tr1]; try reflexivity.
    now destruct (run h (f a) w2) as [[o w3] tr2].
Qed.

Context `{Codec}.

(** [SendMessage] is one [writePacket] of the marshalled message, and its
    result is that call's answer. *)
Lemma SendMessage_run (c : connection) (msg : any) (packet : bytes) (w : W) :
  Marshal msg = Some packet ->
  run h (SendMessage c msg) w
  = let '(result, w') := h _ (transport_writePacket (transport c) packet) w in
    (Returned result, w',
     [Called (transport_writePacket (transport c) packet) result]).
Proof.
  intros HM. unfold SendMessage, Marshal_or_panic. rewrite HM.
  cbn. now destruct (h _ _ w).
Qed.

(** A message the codec cannot serialise makes [SendMessage] panic before
    anything reaches the transport. *)
Lemma SendMessage_panics (c : connection) (msg : any) (w : W) :
  Marshal msg = None ->
  run h (SendMessage c msg) w = (Panicked "ssh: Marshal", w, []).
Proof.
  intros HM. unfold SendMessage, Marshal_or_panic. now rewrite HM.
Qed.

Lemma Disconnect_run (c : connection) (reason : DisconnectReason)
    (message : string) (packet : bytes) (w : W) :
  Marshal (new_disconnectMsg (uint32_of reason) message) = Some packet ->
  run h (Disconnect c reason message) w
  = let '(result, w') := h _ (transport_writePacket (transport c) packet) w in
    (Returned result, w',
     [Called (transport_writePacket (transport c) packet) result]).
Proof.
  intros HM. unfold Disconnect, Marshal_or_panic. rewrite HM.
  cbn. now destruct (h _ _ w).
Qed.

Lemma Close_run (c : connection) (w : W) :
  run h (Close c) w
  = let '(result, w') := h _ (conn_Close (conn (connection_sshConn c))) w in
    (Returned result, w',
     [Called (conn_Close (conn (connection_sshConn c))) result]).
Proof. apply run_invoke. Qed.

(** The four ways through [ReceiveMessage], by what the transport and
    the codec answer. *)
Lemma ReceiveMessage_read_error (c : connection) (w w' : W)
    (packet : bytes) (e : error) :
  h _ (transport_readPacket (transport c)) w = ((packet, Some e), w') ->
  run h (ReceiveMessage c) w
  = (Returned (anil, Some e), w',
     [Called (transport_readPacket (transport c)) (packet, Some e)]).
Proof. intros Hread. unfold ReceiveMessage. cbn. now rewrite Hread. Qed.

Lemma ReceiveMessage_decode_error (c : connection) (w w' : W)
    (packet : bytes) (v : any) (e : error) :
  h _ (transport_readPacket (transport c)) w = ((packet, None), w') ->
  decode packet = (v, Some e) ->
  run h (ReceiveMessage c) w
  = (Returned (anil, Some e), w',
     [Called (transport_readPacket (transport c)) (packet, None)]).
Proof.
  intros Hread Hdec. unfold ReceiveMessage. cbn. rewrite Hread, Hdec.
  reflexivity.
Qed.

Lemma ReceiveMessage_unmarked (c : connection) (w w' : W)
    (packet : bytes) (v : any) :
  h _ (transport_readPacket (transport c)) w = ((packet, None), w') ->
  decode packet = (v, None) ->
  snd (assert_Message v) = false ->
  run h (ReceiveMessage c) w
  = (Returned (anil, Some (errorString "Not a valid connection message: <nil>")),
     w', [Called (transport_readPacket (transport c)) (packet, None)]).
Proof.
  intros Hread Hdec Hno. unfold ReceiveMessage. cbn. rewrite Hread, Hdec.
  destruct v as [| t fs]; [reflexivity |].
  cbn in Hno |- *. destruct (isMessageMarker t); [discriminate | reflexivity].
Qed.

Lemma ReceiveMessage_message (c : connection) (w w' : W)
    (packet : bytes) (t : structType) (fs : list field) :
  h _ (transport_readPacket (transport c)) w = ((packet, None), w') ->
  decode packet = (aptr t fs, None) ->
  isMessageMarker t = true ->
  run h (ReceiveMessage c) w
  = (Returned (aptr t fs, None), w',
     [Called (transport_readPacket (transport c)) (packet, None)]).
Proof.
  intros Hread Hdec Hyes. unfold ReceiveMessage. cbn. rewrite Hread, Hdec.
  cbn. now rewrite Hyes.
Qed.

End Runs.

(** ** The adapter *)

(** C8: for every message the codec serialises, whatever the transport
    does, [SendMessage] makes exactly one call, [writePacket] of
    [Marshal(msg)] on the adapter's transport, and returns that call's
    answer as it is: nil when the write succeeds, the transport's own
    error when it fails. *)
Theorem SendMessage_writes_exactly_one_packet :
  forall (codec : Codec) (W : Type) (h : handler W) (c : connection)
         (msg : any) (packet : bytes) (w : W),
    Marshal msg = Some packet ->
    let '(result, w') := h _ (transport_writePacket (transport c) packet) w in
    run h (SendMessage c msg) w
    = (Returned result, w',
       [Called (transport_writePacket (transport c) packet) result]).
Proof.
  intros codec W h c msg packet w HM.
  rewrite (SendMessage_run h c msg packet w HM).
  now destruct (h _ _ w).
Qed.

Lemma SendMessage_writes_exactly_one_packet_witness :
  run (scripted all_succeed) (SendMessage sample_connection eof_message) empty_World
  = (Returned None, mk_World ∅ ∅ [(1, eof_packet)] [] [],
     [Called (transport_writePacket 1 eof_packet) None]).
Proof.
  exact (SendMessage_writes_exactly_one_packet sample_codec World
           (scripted all_succeed) sample_connection eof_message eof_packet
           empty_World eq_refl).
Defined.

(** A failed write comes back as the transport reported it, after a
    single attempt. *)
Example SendMessage_passes_write_error_on :
  run (scripted writes_fail) (SendMessage sample_connection eof_message) empty_World
  = (Returned (Some broken_pipe), mk_World ∅ ∅ [(1, eof_packet)] [] [],
     [Called (transport_writePacket 1 eof_packet) (Some broken_pipe)]).
Proof. reflexivity. Qed.

(** C9: whatever the environment and whatever state it is in, [Close]
    makes exactly one call, the socket's own [Close], and returns its
    answer; it is the same run as [sshConn.Close]; it makes no transport
    call; and it does the same in the state a [Disconnect] leaves. *)
Theorem Close_closes_the_socket_directly :
  forall (W : Type) (h : handler W) (c : connection) (w : W),
    (let '(result, w') := h _ (conn_Close (conn (connection_sshConn c))) w in
     run h (Close c) w
     = (Returned result, w',
        [Called (conn_Close (conn (connection_sshConn c))) result]))
    /\ run h (Close c) w = run h (sshConn_Close (connection_sshConn c)) w
    /\ omap (written_of (transport c)) (run h (Close c) w).2 = []
    /\ (forall (codec : Codec) (reason : DisconnectReason) (message : string),
          let '(_, w1, _) := run h (Disconnect c reason message) w in
          let '(result, w') := h _ (conn_Close (conn (connection_sshConn c))) w1 in
          run h (Close c) w1
          = (Returned result, w',
             [Called (conn_Close (conn (connection_sshConn c))) result])).
Proof.
  intros W h c w. repeat split.
  - rewrite Close_run. now destruct (h _ _ w).
  - rewrite Close_run. now destruct (h _ _ w).
  - intros codec reason message.
    destruct (run h (Disconnect c reason message) w) as [[o w1] tr].
    rewrite Close_run. now destruct (h _ _ w1).
Qed.

(** C10: whatever the transport and the codec answer, [ReceiveMessage]
    returns a pair in which a non-nil error comes with a nil message and
    a non-nil message comes with a nil error. *)
Theorem ReceiveMessage_never_message_and_error :
  forall (codec : Codec) (W : Type) (h : handler W) (c : connection) (w : W),
    exists (msg : any) (err : error_or_nil) (w' : W) (tr : list event),
      run h (ReceiveMessage c) w = (Returned (msg, err), w', tr)
      /\ (err <> None -> msg = anil)
      /\ (msg <> anil -> err = None).
Proof.
  intros codec W h c w.
  destruct (h _ (transport_readPacket (transport c)) w)
    as [[packet [e |]] w'] eqn:Hread.
  { eexists _, _, _, _. split; [eapply ReceiveMessage_read_error; eassumption |].
    split; [reflexivity | congruence]. }
  destruct (decode packet) as [v [e |]] eqn:Hdec.
  { eexists _, _, _, _.
    split; [eapply ReceiveMessage_decode_error; eassumption |].
    split; [reflexivity | congruence]. }
  destruct (snd (assert_Message v)) eqn:Hok.
  - destruct v as [| t fs]; [discriminate |].
    cbn in Hok. destruct (isMessageMarker t) eqn:Hmark; [| discriminate].
    eexists _, _, _, _.
    split; [eapply ReceiveMessage_message; eassumption |].
    split; [congruence | reflexivity].
  - eexists _, _, _, _.
    split; [eapply ReceiveMessage_unmarked; eassumption |].
    split; [reflexivity | congruence].
Qed.

(** C5, at the failing input: the transport delivers a disconnect packet,
    the codec decodes it to a [*disconnectMsg], whose type description is
    "*ssh.disconnectMsg" and which has no marker method; the error
    [ReceiveMessage] returns describes the type as "<nil>". *)
Theorem ReceiveMessage_reports_unexpected_type_as_nil :
  let w := mk_World ∅ {[ 1 := [bye_packet] ]} [] [] [] in
  (exists fs, decode bye_packet = (aptr disconnectMsg fs, None))
  /\ fmt.typeName (fmt.OIface (decode bye_packet).1) = "*ssh.disconnectMsg"
  /\ (run (scripted all_succeed) (ReceiveMessage sample_connection) w).1.1
     = Returned (anil, Some (errorString "Not a valid connection message: <nil>")).
Proof.
  cbv zeta. split; [| split].
  - eexists. vm_compute. reflexivity.
  - vm_compute. reflexivity.
  - vm_compute. reflexivity.
Qed.

(** The adapter keeps no record of a disconnect: in the state a
    [Disconnect] leaves, [SendMessage] is the same single [writePacket]
    as in any other state, and succeeds whenever the transport takes the
    packet. *)
Lemma SendMessage_after_Disconnect :
  forall (codec : Codec) (W : Type) (h : handler W) (c : connection)
         (reason : DisconnectReason) (message : string)
         (msg : any) (packet : bytes) (w : W),
    Marshal msg = Some packet ->
    let '(_, w1, _) := run h (Disconnect c reason message) w in
    let '(result, w') := h _ (transport_writePacket (transport c) packet) w1 in
    run h (SendMessage c msg) w1
    = (Returned result, w',
       [Called (transport_writePacket (transport c) packet) result]).
Proof.
  intros codec W h c reason message msg packet w HM.
  destruct (run h (Disconnect c reason message) w) as [[o w1] tr].
  rewrite (SendMessage_run h c msg packet w1 HM).
  now destruct (h _ _ w1).
Qed.

(** C1, at the failing input: over a transport that takes every packet,
    [Disconnect(ByApplication, "bye")] returns nil, and the [SendMessage]
    that follows on the same adapter returns nil too, its packet written
    to the transport after the disconnect packet. *)
Theorem SendMessage_succeeds_after_Disconnect :
  run (scripted all_succeed)
      (err1 ← Disconnect sample_connection ByApplication "bye";
       err2 ← SendMessage sample_connection eof_message;
       Ret (err1, err2))
      empty_World
  = (Returned (None, None),
     mk_World ∅ ∅ [(1, bye_packet); (1, eof_packet)] [] [],
     [Called (transport_writePacket 1 bye_packet) None;
      Called (transport_writePacket 1 eof_packet) None]).
Proof. reflexivity. Qed.

(** ** Draining requests *)

Lemma scripted_receive_next (s : Script) (ch : handle) (w : World)
    (item : option Request) (rest : list (option Request)) :
  pending w !! ch = Some (item :: rest) ->
  scripted s _ (chan_receive ch) w
  = (Some item,
     mk_World (<[ch := rest]> (pending w)) (inbound w) (written w)
       (replied w) (closed w)).
Proof. intros Hp. cbn. now rewrite Hp. Qed.

Lemma scripted_receive_closed (s : Script) (ch : handle) (w : World) :
  pending w !! ch = Some [] ->
  scripted s _ (chan_receive ch) w = (None, w).
Proof. intros Hp. cbn. now rewrite Hp. Qed.

(** One turn of the loop: receive, reply if asked to, go round again. *)
Lemma DiscardRequests_step {W} (h : handler W) (fuel : nat) (ch : handle) (w : W) :
  run h (DiscardRequests (S fuel) ch) w
  = let '(next, w1) := h _ (chan_receive ch) w in
    match next with
    | None => (Returned tt, w1, [Called (chan_receive ch) None])
    | Some None =>
        (Panicked "invalid memory address or nil pointer dereference", w1,
         [Called (chan_receive ch) (Some None)])
    | Some (Some req) =>
        if WantReply req then
          let '(answer, w2) := h _ (Request_Reply req false None) w1 in
          let '(o, w3, tr) := run h (DiscardRequests fuel ch) w2 in
          (o, w3,
           Called (chan_receive ch) (Some (Some req))
             :: Called (Request_Reply req false None) answer :: tr)
        else
          let '(o, w3, tr) := run h (DiscardRequests fuel ch) w1 in
          (o, w3, Called (chan_receive ch) (Some (Some req)) :: tr)
    end.
Proof.
  cbn. destruct (h _ (chan_receive ch) w) as [[[req |] |] w1]; try reflexivity.
  destruct (WantReply req); cbn.
  - destruct (h _ (Request_Reply req false None) w1) as [answer w2].
    now destruct (run h (DiscardRequests fuel ch) w2) as [[o w3] tr].
  - now destruct (run h (DiscardRequests fuel ch) w1) as [[o w3] tr].
Qed.

Lemma DiscardRequests_run (s : Script) (ch : handle) (reqs : list Request) :
  forall (fuel : nat) (w : World),
    pending w !! ch = Some (Some <$> reqs) ->
    length reqs < fuel ->
    exists (w' : World) (tr : list event),
      run (scripted s) (DiscardRequests fuel ch) w = (Returned tt, w', tr)
      /\ pending w' !! ch = Some []
      /\ replied w' = replied w ++ (refusal <$> List.filter WantReply reqs)
      /\ omap (received_of ch) tr = Some <$> reqs
      /\ omap reply_of tr = refusal <$> List.filter WantReply reqs.
Proof.
  induction reqs as [| req reqs IH]; intros fuel w Hp Hfuel;
    (destruct fuel as [| fuel]; [cbn in Hfuel; lia |]);
    rewrite DiscardRequests_step.
  - rewrite (scripted_receive_closed s ch w Hp).
    exists w, [Called (chan_receive ch) None].
    repeat split; [assumption | now rewrite app_nil_r |].
    cbn. now destruct (decide (ch = ch)).
  - rewrite fmap_cons in Hp.
    rewrite (scripted_receive_next s ch w _ _ Hp).
    cbn [length] in Hfuel.
    destruct (WantReply req) eqn:Hwant.
    + cbn [scripted].
      match goal with
      | |- context [run (scripted s) (DiscardRequests fuel ch) ?w2] =>
          destruct (IH fuel w2) as (w' & tr & Hrun & Hdone & Hrep & Hrecv & Hans)
      end.
      { cbn. apply lookup_insert_eq. }
      { lia. }
      rewrite Hrun. eexists _, _. split; [reflexivity |].
      cbn [List.filter]. rewrite Hwant.
      split; [assumption |].
      split; [rewrite Hrep; cbn; now rewrite <- app_assoc |].
      split.
      * cbn. destruct (decide (ch = ch)); [| contradiction].
        now rewrite Hrecv.
      * cbn. now rewrite Hans.
    + match goal with
      | |- context [run (scripted s) (DiscardRequests fuel ch) ?w1] =>
          destruct (IH fuel w1) as (w' & tr & Hrun & Hdone & Hrep & Hrecv & Hans)
      end.
      { cbn. apply lookup_insert_eq. }
      { lia. }
      rewrite Hrun. eexists _, _. split; [reflexivity |].
      cbn [List.filter]. rewrite Hwant.
      split; [assumption |].
      split; [exact Hrep |].
      split.
      * cbn. destruct (decide (ch = ch)); [| contradiction].
        now rewrite Hrecv.
      * cbn. now rewrite Hans.
Qed.

Lemma filter_all (reqs : list Request) :
  forallb WantReply reqs = true -> List.filter WantReply reqs = reqs.
Proof.
  induction reqs as [| req reqs IH]; [reflexivity |].
  cbn. destruct (WantReply req); [| discriminate].
  cbn. intros Hall. now rewrite IH.
Qed.

(** C7: let channel [ch] hold the requests [reqs], sent and then closed
    by the producer, and let the loop have more turns than there are
    requests.  Whatever [Reply] answers, [DiscardRequests] returns; it
    has received every request, in order, and the channel is drained; it
    has called [Reply(false, nil)] exactly once for each request with
    [WantReply] set, in order, and never for one without; so when all N
    requests want a reply it has sent exactly N refusals with nil
    payload. *)
Theorem DiscardRequests_refuses_every_request :
  forall (s : Script) (ch : handle) (reqs : list Request) (fuel : nat) (w : World),
    pending w !! ch = Some (Some <$> reqs) ->
    length reqs < fuel ->
    let '(o, w', tr) := run (scripted s) (DiscardRequests fuel ch) w in
    o = Returned tt
    /\ omap (received_of ch) tr = Some <$> reqs
    /\ pending w' !! ch = Some []
    /\ omap reply_of tr = refusal <$> List.filter WantReply reqs
    /\ replied w' = replied w ++ (refusal <$> List.filter WantReply reqs)
    /\ (forallb WantReply reqs = true ->
        omap reply_of tr = refusal <$> reqs
        /\ length (omap reply_of tr) = length reqs).
Proof.
  intros s ch reqs fuel w Hp Hfuel.
  destruct (DiscardRequests_run s ch reqs fuel w Hp Hfuel)
    as (w' & tr & Hrun & Hdone & Hrep & Hrecv & Hans).
  rewrite Hrun. repeat split; try assumption.
  - rewrite Hans, (filter_all reqs) by assumption. reflexivity.
  - rewrite Hans, (filter_all reqs) by assumption. now rewrite length_fmap.
Qed.

Lemma DiscardRequests_refuses_every_request_witness :
  let reqs := [mk_Request 0 true; mk_Request 1 false; mk_Request 2 true] in
  let w := mk_World {[ 7 := Some <$> reqs ]} ∅ [] [] [] in
  let '(o, w', tr) := run (scripted all_succeed) (DiscardRequests 4 7) w in
  o = Returned tt
  /\ omap (received_of 7) tr = Some <$> reqs
  /\ pending w' !! 7 = Some []
  /\ omap reply_of tr = refusal <$> List.filter WantReply reqs
  /\ replied w' = replied w ++ (refusal <$> List.filter WantReply reqs)
  /\ (forallb WantReply reqs = true ->
      omap reply_of tr = refusal <$> reqs
      /\ length (omap reply_of tr) = length reqs).
Proof.
  intros reqs w.
  apply (DiscardRequests_refuses_every_request all_succeed 7 reqs 4 w).
  - reflexivity.
  - cbn. lia.
Defined.

(** Three requests that all want a reply draw exactly three refusals. *)
Example DiscardRequests_three_refusals :
  let reqs := [mk_Request 0 true; mk_Request 1 true; mk_Request 2 true] in
  let w := mk_World {[ 7 := Some <$> reqs ]} ∅ [] [] [] in
  replied (run (scripted all_succeed) (DiscardRequests 4 7) w).1.2
  = [ (mk_Request 0 true, false, None);
      (mk_Request 1 true, false, None);
      (mk_Request 2 true, false, None) ].
Proof. reflexivity. Qed.

(** With too few turns the loop is cut, and a nil pointer in the channel
    stops it with a panic. *)
Example DiscardRequests_out_of_fuel :
  let w := mk_World {[ 7 := [Some (mk_Request 0 true)] ]} ∅ [] [] [] in
  (run (scripted all_succeed) (DiscardRequests 1 7) w).1.1 = Exhausted.
Proof. reflexivity. Qed.

Example DiscardRequests_nil_request :
  let w := mk_World {[ 7 := [None; Some (mk_Request 0 true)] ]} ∅ [] [] [] in
  (run (scripted all_succeed) (DiscardRequests 3 7) w).1.1
  = Panicked "invalid memory address or nil pointer dereference".
Proof. reflexivity. Qed.

(** ** Copy on read *)

Lemma slice_get_length (h : heap) (s : slice) (data : bytes) :
  slice_get h s = Some data -> len s = length data.
Proof.
  destruct s as [| a off n cap]; cbn.
  - now intros [= <-].
  - destruct (h !! a) as [contents |]; [| discriminate].
    destruct (decide (off + n <= length contents)); [| discriminate].
    intros [= <-]. rewrite length_take, length_drop. lia.
Qed.

(** A slice shows the same bytes in two heaps that agree on its array. *)
Lemma slice_get_agree (h h' : heap) (s : slice) :
  (forall a off n cap, s = smk a off n cap -> h' !! a = h !! a) ->
  slice_get h' s = slice_get h s.
Proof.
  intros Hagree. destruct s as [| a off n cap]; [reflexivity |].
  cbn. now rewrite (Hagree a off n cap eq_refl).
Qed.

(** A well-formed slice names an allocated array. *)
Lemma slice_get_allocated (h : heap) (a : loc) (off n cap : nat) (data : bytes) :
  slice_get h (smk a off n cap) = Some data -> is_Some (h !! a).
Proof.
  cbn. destruct (h !! a) as [contents |]; [eauto | discriminate].
Qed.

(** Allocating or overwriting an array that a slice does not name leaves
    the slice as it was. *)
Lemma slice_get_insert_other (h : heap) (a : loc) (x : bytes) (s : slice) :
  (forall off n cap, s <> smk a off n cap) ->
  slice_get (<[a := x]> h) s = slice_get h s.
Proof.
  intros Hother. apply slice_get_agree. intros a' off n cap ->.
  apply lookup_insert_ne. intros <-. now apply (Hother off n cap).
Qed.

Lemma slice_get_insert_fresh (h : heap) (a : loc) (x : bytes) (s : slice)
    (data : bytes) :
  h !! a = None ->
  slice_get h s = Some data ->
  slice_get (<[a := x]> h) s = Some data.
Proof.
  intros Hfresh Hget. rewrite slice_get_insert_other; [assumption |].
  intros off n cap ->. apply slice_get_allocated in Hget.
  rewrite Hfresh in Hget. now destruct Hget.
Qed.

Lemma slice_get_whole (h : heap) (a : loc) (data : bytes) :
  slice_get (<[a := data]> h) (smk a 0 (length data) (length data)) = Some data.
Proof.
  cbn. rewrite lookup_insert_eq.
  destruct (decide (length data <= length data)); [| lia].
  now rewrite drop_0, firstn_all.
Qed.

(** [make] hands out an address the heap did not use. *)
Lemma make_spec (n : nat) (h : heap) :
  exists a : loc,
    h !! a = None
    /\ make n h = (smk a 0 n n, <[a := replicate n Byte.x00]> h).
Proof.
  exists (fresh (dom h)). split; [| reflexivity].
  apply not_elem_of_dom, is_fresh.
Qed.

(** [dup] of a well-formed slice: a new array holding the bytes of the
    source, and the slice that covers exactly that array; nothing else
    in the heap changes. *)
Lemma dup_spec (src : slice) (h : heap) (data : bytes) :
  slice_get h src = Some data ->
  exists a : loc,
    h !! a = None
    /\ dup src h = (smk a 0 (length data) (length data), <[a := data]> h).
Proof.
  intros Hsrc.
  pose proof (slice_get_length h src data Hsrc) as Hlen.
  destruct (make_spec (len src) h) as (a & Hfresh & Hmake).
  exists a. split; [assumption |].
  unfold dup. rewrite Hmake. unfold copy.
  rewrite (slice_get_insert_fresh h a _ src data Hfresh Hsrc).
  rewrite lookup_insert_eq, insert_insert_eq.
  rewrite Hlen, Nat.min_id, firstn_all. cbn [take Nat.add].
  rewrite drop_ge by (rewrite length_replicate; lia).
  now rewrite app_nil_r.
Qed.

(** An element write changes the array of the slice written through and
    no other. *)
Lemma slice_set_frame (h h' : heap) (a : loc) (off n cap i : nat) (v : Byte.byte) :
  slice_set h (smk a off n cap) i v = Some h' ->
  forall l : loc, l <> a -> h' !! l = h !! l.
Proof.
  cbn. destruct (decide (i < n)) as [_ |]; [| discriminate].
  destruct (h !! a) as [contents |]; [| discriminate].
  intros [= <-] l Hl. now apply lookup_insert_ne.
Qed.

Lemma slice_sets_frame (a : loc) (off n cap : nat) (ws : list (nat * Byte.byte)) :
  forall h h' : heap,
    slice_sets h (smk a off n cap) ws = Some h' ->
    forall l : loc, l <> a -> h' !! l = h !! l.
Proof.
  induction ws as [| [i v] ws IH]; intros h h'; cbn [slice_sets].
  - now intros [= <-].
  - destruct (slice_set h (smk a off n cap) i v) as [h1 |] eqn:Hset;
      [| discriminate].
    intros Hrest l Hl. rewrite (IH h1 h' Hrest l Hl).
    now apply (slice_set_frame h h1 a off n cap i v).
Qed.

(** Writes through one slice are invisible through a slice on another
    array. *)
Lemma slice_sets_other (h h' : heap) (a : loc) (off n cap : nat)
    (ws : list (nat * Byte.byte)) (s : slice) :
  slice_sets h (smk a off n cap) ws = Some h' ->
  (forall off' n' cap', s <> smk a off' n' cap') ->
  slice_get h' s = slice_get h s.
Proof.
  intros Hsets Hother. apply slice_get_agree. intros a' off' n' cap' ->.
  apply (slice_sets_frame a off n cap ws h h' Hsets).
  intros ->. now apply (Hother off' n' cap').
Qed.

(** A slice that is well formed in a heap is not on an address the heap
    does not use. *)
Lemma allocated_not_fresh (h : heap) (a : loc) (s : slice) (data : bytes) :
  h !! a = None ->
  slice_get h s = Some data ->
  forall off n cap, s <> smk a off n cap.
Proof.
  intros Hfresh Hget off n cap ->. apply slice_get_allocated in Hget.
  rewrite Hfresh in Hget. now destruct Hget.
Qed.

(** Two calls of [dup] on the same stored slice. *)
Lemma dup_twice (stored : slice) (h : heap) (data : bytes) :
  slice_get h stored = Some data ->
  let '(s1, h1) := dup stored h in
  let '(s2, h2) := dup stored h1 in
  slice_get h2 s1 = Some data /\ slice_get h2 s2 = Some data
  /\ len s1 = length data /\ len s2 = length data
  /\ (exists a1 a2 : loc,
        s1 = smk a1 0 (length data) (length data)
        /\ s2 = smk a2 0 (length data) (length data)
        /\ h !! a1 = None /\ h1 !! a2 = None /\ a1 <> a2)
  /\ slice_get h2 stored = Some data
  /\ (forall (ws : list (nat * Byte.byte)) (h3 : heap),
        slice_sets h2 s1 ws = Some h3 ->
        slice_get h3 stored = Some data /\ slice_get h3 s2 = Some data
        /\ (let '(s3, h4) := dup stored h3 in slice_get h4 s3 = Some data))
  /\ (forall (ws : list (nat * Byte.byte)) (h3 : heap),
        slice_sets h2 s2 ws = Some h3 ->
        slice_get h3 stored = Some data /\ slice_get h3 s1 = Some data).
Proof.
  intros Hstored.
  destruct (dup_spec stored h data Hstored) as (a1 & Hfresh1 & ->).
  pose proof (slice_get_insert_fresh h a1 data stored data Hfresh1 Hstored)
    as Hstored1.
  destruct (dup_spec stored _ data Hstored1) as (a2 & Hfresh2 & ->).
  assert (Hne : a1 <> a2).
  { intros <-. now rewrite lookup_insert_eq in Hfresh2. }
  pose proof (slice_get_insert_fresh _ a2 data stored data Hfresh2 Hstored1)
    as Hstored2.
  assert (Hs1 : slice_get (<[a2 := data]> (<[a1 := data]> h))
                  (smk a1 0 (length data) (length data)) = Some data).
  { apply slice_get_insert_fresh; [assumption | apply slice_get_whole]. }
  assert (Hs2 : slice_get (<[a2 := data]> (<[a1 := data]> h))
                  (smk a2 0 (length data) (length data)) = Some data)
    by apply slice_get_whole.
  split; [assumption |]. split; [assumption |].
  split; [reflexivity |]. split; [reflexivity |].
  split; [exists a1, a2; repeat split; assumption |].
  split; [assumption |].
  split.
  - intros ws h3 Hsets.
    assert (Hstored3 : slice_get h3 stored = Some data).
    { rewrite (slice_sets_other _ _ _ _ _ _ ws stored Hsets); [assumption |].
      now apply (allocated_not_fresh h a1 stored data). }
    split; [assumption |]. split.
    + rewrite (slice_sets_other _ _ _ _ _ _ ws _ Hsets); [assumption |].
      intros off n cap [= Heq]. now apply Hne.
    + destruct (dup_spec stored h3 data Hstored3) as (a3 & _ & ->).
      apply slice_get_whole.
  - intros ws h3 Hsets. split.
    + rewrite (slice_sets_other _ _ _ _ _ _ ws stored Hsets); [assumption |].
      now apply (allocated_not_fresh _ a2 stored data Hfresh2).
    + rewrite (slice_sets_other _ _ _ _ _ _ ws _ Hsets); [assumption |].
      intros off n cap [= Heq]. now apply Hne.
Qed.

(** C4: let the stored field be a well-formed slice showing [data].  Two
    calls of the same getter return slices that both show [data] and
    have its length; each is the whole of an array allocated by that
    call, so the two results and the stored value lie in three different
    arrays; and after any run of writes through either result the stored
    value and the other result still show [data], as does the result of
    a later call. *)
Theorem metadata_getters_return_independent_copies :
  forall (g : byte_getter) (c : sshConn) (h : heap) (data : bytes),
    slice_get h (getter_field g c) = Some data ->
    let '(s1, h1) := getter_method g c h in
    let '(s2, h2) := getter_method g c h1 in
    slice_get h2 s1 = Some data /\ slice_get h2 s2 = Some data
    /\ len s1 = length data /\ len s2 = length data
    /\ (exists a1 a2 : loc,
          s1 = smk a1 0 (length data) (length data)
          /\ s2 = smk a2 0 (length data) (length data)
          /\ h !! a1 = None /\ h1 !! a2 = None /\ a1 <> a2)
    /\ slice_get h2 (getter_field g c) = Some data
    /\ (forall (ws : list (nat * Byte.byte)) (h3 : heap),
          slice_sets h2 s1 ws = Some h3 ->
          slice_get h3 (getter_field g c) = Some data
          /\ slice_get h3 s2 = Some data
          /\ (let '(s3, h4) := getter_method g c h3 in
              slice_get h4 s3 = Some data))
    /\ (forall (ws : list (nat * Byte.byte)) (h3 : heap),
          slice_sets h2 s2 ws = Some h3 ->
          slice_get h3 (getter_field g c) = Some data
          /\ slice_get h3 s1 = Some data).
Proof.
  intros g c h data Hstored.
  destruct g; cbn [getter_method getter_field] in *;
    unfold SessionID, ClientVersion, ServerVersion;
    now apply dup_twice.
Qed.

Lemma metadata_getters_return_independent_copies_witness :
  let '(s1, h1) := SessionID session_conn session_heap in
  let '(s2, h2) := SessionID session_conn h1 in
  slice_get h2 s1 = Some session_hash
  /\ slice_get h2 s2 = Some session_hash
  /\ forall (ws : list (nat * Byte.byte)) (h3 : heap),
       slice_sets h2 s1 ws = Some h3 ->
       slice_get h3 (sessionID session_conn) = Some session_hash
       /\ slice_get h3 s2 = Some session_hash.
Proof.
  pose proof (metadata_getters_return_independent_copies
                GetSessionID session_conn session_heap session_hash eq_refl)
    as Hcopies.
  cbn [getter_method getter_field] in Hcopies.
  destruct (SessionID session_conn session_heap) as [s1 h1].
  destruct (SessionID session_conn h1) as [s2 h2].
  destruct Hcopies as (Hfirst & Hsecond & _ & _ & _ & _ & Hwrites & _).
  split; [exact Hfirst |]. split; [exact Hsecond |].
  intros ws h3 Hsets.
  destruct (Hwrites ws h3 Hsets) as (Hkept & Hother & _).
  split; assumption.
Defined.

(** Overwriting the first byte of one copy shows in that copy only. *)
Example SessionID_overwrite_first_copy :
  let '(s1, h1) := SessionID session_conn session_heap in
  let '(s2, h2) := SessionID session_conn h1 in
  match slice_set h2 s1 0 Byte.xff with
  | Some h3 =>
      slice_get h3 s1 = Some [Byte.xff; Byte.x03; Byte.x04]
      /\ slice_get h3 s2 = Some session_hash
      /\ slice_get h3 (sessionID session_conn) = Some session_hash
  | None => False
  end.
Proof. vm_compute. repeat split. Qed.

(** A nil field is returned as an empty slice that is not nil. *)
Example ClientVersion_of_nil :
  let '(s, h) := ClientVersion session_conn session_heap in
  s <> snil /\ len s = 0 /\ slice_get h s = Some [].
Proof. vm_compute. repeat split. discriminate. Qed.

(** * Further properties of the code *)

(** ** The message types *)

(** X1: the struct types with an [isMessageMarker] method (lines
    120-133) are exactly the fourteen types renamed at lines 101-114;
    the fourteen exported names and the fourteen types are pairwise
    different; [disconnectMsg], which [Disconnect] sends, is not one of
    them, so a pointer to it and the nil interface both fail the
    [Message] assertion. *)
Theorem marker_types_are_the_exported_aliases :
  (forall t : structType,
     isMessageMarker t = bool_decide (t ∈ exported_aliases.*2))
  /\ length exported_aliases = 14
  /\ NoDup exported_aliases.*1
  /\ NoDup exported_aliases.*2
  /\ (forall fs, assert_Message (aptr disconnectMsg fs) = (anil, false))
  /\ assert_Message anil = (anil, false).
Proof.
  split.
  { intros t. destruct t; reflexivity. }
  split; [reflexivity |].
  split; [apply (bool_decide_unpack _); vm_compute; exact I |].
  split; [apply (bool_decide_unpack _); vm_compute; exact I |].
  split; reflexivity.
Qed.

(** ** Disconnect *)

(** X2: for a reason that fits in 32 bits, and whatever the transport
    does, [Disconnect] makes exactly one call: [writePacket], on the
    adapter's transport, of the marshalled
    [disconnectMsg{Reason: reason, Message: message}].  It returns that
    call's answer as it is and does not close the socket. *)
Theorem Disconnect_writes_one_disconnect_packet :
  forall (codec : Codec) (W : Type) (h : handler W) (c : connection)
         (reason : DisconnectReason) (message : string) (packet : bytes) (w : W),
    (reason < 2 ^ 32)%N ->
    Marshal (new_disconnectMsg reason message) = Some packet ->
    let '(result, w') := h _ (transport_writePacket (transport c) packet) w in
    run h (Disconnect c reason message) w
    = (Returned result, w',
       [Called (transport_writePacket (transport c) packet) result])
    /\ omap closed_of (run h (Disconnect c reason message) w).2 = [].
Proof.
  intros codec W h c reason message packet w Hrange HM.
  assert (Hconv : uint32_of reason = reason)
    by (unfold uint32_of; now apply N.mod_small).
  rewrite <- Hconv in HM.
  rewrite (Disconnect_run h c reason message packet w HM).
  now destruct (h _ _ w).
Qed.

Lemma Disconnect_writes_one_disconnect_packet_witness :
  run (scripted writes_fail) (Disconnect sample_connection ByApplication "bye")
      empty_World
  = (Returned (Some broken_pipe), mk_World ∅ ∅ [(1, bye_packet)] [] [],
     [Called (transport_writePacket 1 bye_packet) (Some broken_pipe)])
  /\ omap closed_of
       (run (scripted writes_fail)
            (Disconnect sample_connection ByApplication "bye") empty_World).2
     = [].
Proof.
  apply (Disconnect_writes_one_disconnect_packet sample_codec World
           (scripted writes_fail) sample_connection ByApplication "bye"
           bye_packet empty_World).
  - reflexivity.
  - reflexivity.
Defined.

(** ** ReceiveMessage *)



(** X5: when the read and the decoding succeed and the decoded value
    fails the [Message] assertion, the error text is the fixed string
    "Not a valid connection message: <nil>", the same for the nil
    interface and for a pointer to any unmarked struct; the message
    returned beside it is nil. *)
Theorem ReceiveMessage_capability_error_is_constant :
  forall (codec : Codec) (W : Type) (h : handler W) (c : connection)
         (w w' : W) (packet : bytes) (v : any),
    h _ (transport_readPacket (transport c)) w = ((packet, None), w') ->
    decode packet = (v, None) ->
    (assert_Message v).2 = false ->
    (run h (ReceiveMessage c) w).1.1
    = Returned (anil, Some (errorString "Not a valid connection message: <nil>")).
Proof.
  intros codec W h c w w' packet v Hread Hdec Hno.
  now rewrite (ReceiveMessage_unmarked h c w w' packet v Hread Hdec Hno).
Qed.

Lemma ReceiveMessage_capability_error_is_constant_witness :
  (run (scripted all_succeed) (ReceiveMessage sample_connection)
       (mk_World ∅ {[ 1 := [bye_packet] ]} [] [] [])).1.1
  = Returned (anil, Some (errorString "Not a valid connection message: <nil>")).
Proof.
  apply (ReceiveMessage_capability_error_is_constant sample_codec World
           (scripted all_succeed) sample_connection
           (mk_World ∅ {[ 1 := [bye_packet] ]} [] [] [])
           (mk_World ∅ (<[ 1 := [] ]> {[ 1 := [bye_packet] ]}) [] [] [])
           bye_packet
           (aptr disconnectMsg
              [FBytes [ Byte.x00; Byte.x00; Byte.x00; Byte.x0b; Byte.x00;
                        Byte.x00; Byte.x00; Byte.x03; Byte.x62; Byte.x79;
                        Byte.x65 ]])).
  - reflexivity.
  - vm_compute. reflexivity.
  - reflexivity.
Defined.

(** X6: [ReceiveMessage] never returns a nil message with a nil error.
    When the error is nil, the read succeeded, the message is the very
    value the codec decoded from the packet read, and it is a pointer to
    one of the fourteen exported message types. *)
Theorem ReceiveMessage_returns_the_decoded_message :
  forall (codec : Codec) (W : Type) (h : handler W) (c : connection) (w w' : W)
         (msg : any) (err : error_or_nil) (tr : list event),
    run h (ReceiveMessage c) w = (Returned (msg, err), w', tr) ->
    (msg = anil -> err <> None)
    /\ (err = None ->
        exists (packet : bytes) (t : structType) (fs : list field),
          (h _ (transport_readPacket (transport c)) w).1 = (packet, None)
          /\ decode packet = (msg, None)
          /\ msg = aptr t fs
          /\ t ∈ exported_aliases.*2).
Proof.
  intros codec W h c w w' msg err tr Hrun.
  destruct (h _ (transport_readPacket (transport c)) w)
    as [[packet [e |]] w1] eqn:Hread.
  { rewrite (ReceiveMessage_read_error h c w w1 packet e Hread) in Hrun.
    injection Hrun as <- <- _ _. split; [discriminate | discriminate]. }
  destruct (decode packet) as [v [e |]] eqn:Hdec.
  { rewrite (ReceiveMessage_decode_error h c w w1 packet v e Hread Hdec) in Hrun.
    injection Hrun as <- <- _ _. split; [discriminate | discriminate]. }
  destruct (snd (assert_Message v)) eqn:Hok.
  - destruct v as [| t fs]; [discriminate |].
    cbn in Hok. destruct (isMessageMarker t) eqn:Hmark; [| discriminate].
    rewrite (ReceiveMessage_message h c w w1 packet t fs Hread Hdec Hmark) in Hrun.
    injection Hrun as <- <- _ _. split; [discriminate |].
    intros _. exists packet, t, fs. repeat split; try assumption.
    destruct t; try discriminate; set_solver.
  - rewrite (ReceiveMessage_unmarked h c w w1 packet v Hread Hdec Hok) in Hrun.
    injection Hrun as <- <- _ _. split; [discriminate | discriminate].
Qed.

Lemma ReceiveMessage_returns_the_decoded_message_witness :
  let w := mk_World ∅ {[ 1 := [eof_packet] ]} [] [] [] in
  let msg := aptr channelEOFMsg [FBytes [Byte.x00; Byte.x00; Byte.x00; Byte.x00]] in
  (msg = anil -> @None error <> None)
  /\ (@None error = None ->
      exists (packet : bytes) (t : structType) (fs : list field),
        (scripted all_succeed _ (transport_readPacket (transport sample_connection))
           w).1 = (packet, None)
        /\ decode packet = (msg, None)
        /\ msg = aptr t fs
        /\ t ∈ exported_aliases.*2).
Proof.
  intros w msg.
  apply (ReceiveMessage_returns_the_decoded_message sample_codec World
           (scripted all_succeed) sample_connection w
           (mk_World ∅ (<[ 1 := [] ]> {[ 1 := [eof_packet] ]}) [] [] [])
           msg None
           [Called (transport_readPacket 1) (eof_packet, None)]).
  reflexivity.
Defined.

(** A channel-EOF packet is received as a [*channelEOFMsg]. *)
Example ReceiveMessage_eof_packet :
  (run (scripted all_succeed) (ReceiveMessage sample_connection)
       (mk_World ∅ {[ 1 := [eof_packet] ]} [] [] [])).1.1
  = Returned (aptr channelEOFMsg
                [FBytes [Byte.x00; Byte.x00; Byte.x00; Byte.x00]], None).
Proof. reflexivity. Qed.

(** ** DiscardRequests in any environment *)

(** X7: whatever the environment answers and however long the loop
    runs, every call [DiscardRequests] makes is a receive on its own
    channel or a [Reply(false, nil)] on a request whose [WantReply] is
    set: it writes no packet and closes no socket.  Its replies are, in
    order, one refusal for each received request that wants one. *)
Theorem DiscardRequests_only_receives_and_refuses :
  forall (W : Type) (h : handler W) (fuel : nat) (ch : handle) (w : W),
    let tr := (run h (DiscardRequests fuel ch) w).2 in
    forallb (is_drain_call ch) tr = true
    /\ omap reply_of tr
       = refusal <$> List.filter WantReply (omap id (omap (received_of ch) tr)).
Proof.
  intros W h fuel ch. induction fuel as [| fuel IH]; intros w; cbv zeta.
  { split; reflexivity. }
  rewrite DiscardRequests_step.
  destruct (h _ (chan_receive ch) w) as [[[req |] |] w1].
  - destruct (WantReply req) eqn:Hwant.
    + destruct (h _ (Request_Reply req false None) w1) as [answer w2].
      specialize (IH w2). cbv zeta in IH.
      destruct (run h (DiscardRequests fuel ch) w2) as [[o w3] tr].
      cbn in IH |- *. destruct IH as [IHcalls IHreplies].
      rewrite Hwant, IHcalls, IHreplies.
      rewrite bool_decide_eq_true_2 by reflexivity.
      destruct (decide (ch = ch)); [| contradiction].
      cbn. rewrite Hwant. split; reflexivity.
    + specialize (IH w1). cbv zeta in IH.
      destruct (run h (DiscardRequests fuel ch) w1) as [[o w3] tr].
      cbn in IH |- *. destruct IH as [IHcalls IHreplies].
      rewrite IHcalls, IHreplies.
      rewrite bool_decide_eq_true_2 by reflexivity.
      destruct (decide (ch = ch)); [| contradiction].
      cbn. rewrite Hwant. split; reflexivity.
  - cbn. rewrite bool_decide_eq_true_2 by reflexivity.
    destruct (decide (ch = ch)); [| contradiction]. split; reflexivity.
  - cbn. rewrite bool_decide_eq_true_2 by reflexivity.
    destruct (decide (ch = ch)); [| contradiction]. split; reflexivity.
Qed.

(** X8: in any environment, [DiscardRequests] returns only once a
    receive has reported its channel closed and drained, and that
    receive is the last call it makes. *)
Theorem DiscardRequests_returns_only_on_close :
  forall (W : Type) (h : handler W) (fuel : nat) (ch : handle) (w : W),
    (run h (DiscardRequests fuel ch) w).1.1 = Returned tt ->
    last (run h (DiscardRequests fuel ch) w).2
    = Some (Called (chan_receive ch) None).
Proof.
  intros W h fuel ch. induction fuel as [| fuel IH]; intros w.
  { discriminate. }
  rewrite DiscardRequests_step.
  destruct (h _ (chan_receive ch) w) as [[[req |] |] w1].
  - destruct (WantReply req).
    + destruct (h _ (Request_Reply req false None) w1) as [answer w2].
      specialize (IH w2).
      destruct (run h (DiscardRequests fuel ch) w2) as [[o w3] tr].
      cbn in IH |- *. intros Ho. specialize (IH Ho).
      rewrite !last_cons, IH. reflexivity.
    + specialize (IH w1).
      destruct (run h (DiscardRequests fuel ch) w1) as [[o w3] tr].
      cbn in IH |- *. intros Ho. specialize (IH Ho).
      rewrite last_cons, IH. reflexivity.
  - discriminate.
  - reflexivity.
Qed.

Lemma DiscardRequests_returns_only_on_close_witness :
  last (run (scripted all_succeed) (DiscardRequests 2 7)
          (mk_World {[ 7 := [Some (mk_Request 0 true)] ]} ∅ [] [] [])).2
  = Some (Called (chan_receive 7) None).
Proof.
  apply (DiscardRequests_returns_only_on_close World (scripted all_succeed) 2 7
           (mk_World {[ 7 := [Some (mk_Request 0 true)] ]} ∅ [] [] [])).
  reflexivity.
Defined.

(** X9: a nil pointer in the channel stops [DiscardRequests] with a
    nil-dereference panic.  The requests before it have been received
    and refused as usual; the items after it stay in the channel. *)
Theorem DiscardRequests_panics_on_nil_request :
  forall (s : Script) (ch : handle) (reqs : list Request)
         (rest : list (option Request)) (fuel : nat) (w : World),
    pending w !! ch = Some ((Some <$> reqs) ++ None :: rest) ->
    length reqs < fuel ->
    let '(o, w', tr) := run (scripted s) (DiscardRequests fuel ch) w in
    o = Panicked "invalid memory address or nil pointer dereference"
    /\ pending w' !! ch = Some rest
    /\ replied w' = replied w ++ (refusal <$> List.filter WantReply reqs)
    /\ omap reply_of tr = refusal <$> List.filter WantReply reqs.
Proof.
  intros s ch reqs rest. induction reqs as [| req reqs IH];
    intros fuel w Hp Hfuel;
    (destruct fuel as [| fuel]; [cbn in Hfuel; lia |]);
    rewrite DiscardRequests_step.
  - cbn [fmap list_fmap app] in Hp.
    rewrite (scripted_receive_next s ch w _ _ Hp).
    cbn. rewrite lookup_insert_eq, app_nil_r. repeat split.
  - rewrite fmap_cons in Hp. cbn [app] in Hp.
    rewrite (scripted_receive_next s ch w _ _ Hp).
    cbn [length] in Hfuel. cbn [List.filter].
    destruct (WantReply req) eqn:Hwant.
    + cbn [scripted].
      match goal with
      | |- context [run (scripted s) (DiscardRequests fuel ch) ?w2] =>
          specialize (IH fuel w2);
          destruct (run (scripted s) (DiscardRequests fuel ch) w2)
            as [[o w'] tr]
      end.
      destruct IH as (Ho & Hrest & Hrep & Hans);
        [cbn; apply lookup_insert_eq | lia |].
      split; [assumption |]. split; [assumption |].
      split; [rewrite Hrep; cbn; now rewrite <- app_assoc |].
      cbn. now rewrite Hans.
    + match goal with
      | |- context [run (scripted s) (DiscardRequests fuel ch) ?w1] =>
          specialize (IH fuel w1);
          destruct (run (scripted s) (DiscardRequests fuel ch) w1)
            as [[o w'] tr]
      end.
      destruct IH as (Ho & Hrest & Hrep & Hans);
        [cbn; apply lookup_insert_eq | lia |].
      split; [assumption |]. split; [assumption |].
      split; [exact Hrep |].
      cbn. now rewrite Hans.
Qed.

Lemma DiscardRequests_panics_on_nil_request_witness :
  let w := mk_World {[ 7 := [Some (mk_Request 0 true); None;
                             Some (mk_Request 1 true)] ]} ∅ [] [] [] in
  let '(o, w', tr) := run (scripted all_succeed) (DiscardRequests 2 7) w in
  o = Panicked "invalid memory address or nil pointer dereference"
  /\ pending w' !! 7 = Some [Some (mk_Request 1 true)]
  /\ replied w' = [refusal (mk_Request 0 true)]
  /\ omap reply_of tr = [refusal (mk_Request 0 true)].
Proof.
  intros w.
  apply (DiscardRequests_panics_on_nil_request all_succeed 7
           [mk_Request 0 true] [Some (mk_Request 1 true)] 2 w).
  - reflexivity.
  - cbn. lia.
Defined.

(** ** dup and the getters, further *)

(** X10: [dup] of a well-formed slice allocates one array that holds
    exactly the bytes the slice shows, none of the bytes that its
    backing array has outside the window and no spare capacity; the
    result covers the whole of the new array, and every other array of
    the heap is as before. *)
Theorem dup_allocates_an_exact_copy :
  forall (src : slice) (h : heap) (data : bytes),
    slice_get h src = Some data ->
    exists a : loc,
      h !! a = None
      /\ dup src h = (smk a 0 (length data) (length data), <[a := data]> h).
Proof. exact dup_spec. Qed.

Lemma dup_allocates_an_exact_copy_witness :
  exists a : loc,
    shared_heap !! a = None
    /\ dup (clientVersion shared_conn) shared_heap
       = (smk a 0 2 2, <[a := [Byte.x03; Byte.x04]]> shared_heap).
Proof.
  apply (dup_allocates_an_exact_copy (clientVersion shared_conn) shared_heap
           [Byte.x03; Byte.x04]).
  reflexivity.
Defined.

(** X11: for any slice and any heap, well formed or not, [dup] returns
    a non-nil slice of the length of its argument, with capacity equal
    to its length, on an address the heap did not use; and it changes
    no array the heap already had. *)
Theorem dup_never_touches_existing_arrays :
  forall (src : slice) (h : heap),
    let '(dst, h') := dup src h in
    (exists a : loc,
       dst = smk a 0 (len src) (len src) /\ h !! a = None /\ is_Some (h' !! a))
    /\ dst <> snil
    /\ len dst = len src
    /\ (forall (l : loc) (x : bytes), h !! l = Some x -> h' !! l = Some x).
Proof.
  intros src h.
  destruct (make_spec (len src) h) as (a & Hfresh & Hmake).
  unfold dup. rewrite Hmake. unfold copy.
  assert (Hkeep : forall (y : bytes) (l : loc) (x : bytes),
             h !! l = Some x -> <[a := y]> h !! l = Some x).
  { intros y l x Hl. rewrite lookup_insert_ne; [assumption |].
    intros <-. congruence. }
  destruct (slice_get (<[a := replicate (len src) Byte.x00]> h) src)
    as [data |].
  - rewrite lookup_insert_eq, insert_insert_eq.
    split; [exists a; rewrite lookup_insert_eq; eauto |].
    split; [discriminate |]. split; [reflexivity |]. apply Hkeep.
  - split; [exists a; rewrite lookup_insert_eq; eauto |].
    split; [discriminate |]. split; [reflexivity |]. apply Hkeep.
Qed.

(** Two calls of [dup] on two stored slices, which may share an array. *)
Lemma dup_pair (stored1 stored2 : slice) (h : heap) (d1 d2 : bytes) :
  slice_get h stored1 = Some d1 ->
  slice_get h stored2 = Some d2 ->
  let '(s1, h1) := dup stored1 h in
  let '(s2, h2) := dup stored2 h1 in
  slice_get h2 s1 = Some d1 /\ slice_get h2 s2 = Some d2
  /\ (forall (ws : list (nat * Byte.byte)) (h3 : heap),
        slice_sets h2 s1 ws = Some h3 ->
        slice_get h3 s2 = Some d2
        /\ slice_get h3 stored1 = Some d1 /\ slice_get h3 stored2 = Some d2)
  /\ (forall (ws : list (nat * Byte.byte)) (h3 : heap),
        slice_sets h2 s2 ws = Some h3 ->
        slice_get h3 s1 = Some d1
        /\ slice_get h3 stored1 = Some d1 /\ slice_get h3 stored2 = Some d2).
Proof.
  intros Hst1 Hst2.
  destruct (dup_spec stored1 h d1 Hst1) as (a1 & Hfresh1 & ->).
  pose proof (slice_get_insert_fresh h a1 d1 stored1 d1 Hfresh1 Hst1) as Hst1'.
  pose proof (slice_get_insert_fresh h a1 d1 stored2 d2 Hfresh1 Hst2) as Hst2'.
  destruct (dup_spec stored2 _ d2 Hst2') as (a2 & Hfresh2 & ->).
  assert (Hne : a1 <> a2).
  { intros <-. now rewrite lookup_insert_eq in Hfresh2. }
  pose proof (slice_get_insert_fresh _ a2 d2 stored1 d1 Hfresh2 Hst1') as Hst1''.
  pose proof (slice_get_insert_fresh _ a2 d2 stored2 d2 Hfresh2 Hst2') as Hst2''.
  assert (Hs1 : slice_get (<[a2 := d2]> (<[a1 := d1]> h))
                  (smk a1 0 (length d1) (length d1)) = Some d1).
  { apply slice_get_insert_fresh; [assumption | apply slice_get_whole]. }
  assert (Hs2 : slice_get (<[a2 := d2]> (<[a1 := d1]> h))
                  (smk a2 0 (length d2) (length d2)) = Some d2)
    by apply slice_get_whole.
  split; [assumption |]. split; [assumption |]. split.
  - intros ws h3 Hsets. repeat split.
    + rewrite (slice_sets_other _ _ _ _ _ _ ws _ Hsets); [assumption |].
      intros off n cap [= Heq]. now apply Hne.
    + rewrite (slice_sets_other _ _ _ _ _ _ ws stored1 Hsets); [assumption |].
      now apply (allocated_not_fresh h a1 stored1 d1).
    + rewrite (slice_sets_other _ _ _ _ _ _ ws stored2 Hsets); [assumption |].
      now apply (allocated_not_fresh h a1 stored2 d2).
  - intros ws h3 Hsets. repeat split.
    + rewrite (slice_sets_other _ _ _ _ _ _ ws _ Hsets); [assumption |].
      intros off n cap [= Heq]. now apply Hne.
    + rewrite (slice_sets_other _ _ _ _ _ _ ws stored1 Hsets); [assumption |].
      now apply (allocated_not_fresh _ a2 stored1 d1 Hfresh2).
    + rewrite (slice_sets_other _ _ _ _ _ _ ws stored2 Hsets); [assumption |].
      now apply (allocated_not_fresh _ a2 stored2 d2 Hfresh2).
Qed.

(** X12: results of different getters are independent too, even when
    the fields they read are windows on one array: after a call of one
    getter and a call of another, each result shows its field's bytes,
    and any run of writes through either result changes neither the
    other result nor either stored field. *)
Theorem getters_of_different_fields_are_independent :
  forall (g1 g2 : byte_getter) (c : sshConn) (h : heap) (d1 d2 : bytes),
    slice_get h (getter_field g1 c) = Some d1 ->
    slice_get h (getter_field g2 c) = Some d2 ->
    let '(s1, h1) := getter_method g1 c h in
    let '(s2, h2) := getter_method g2 c h1 in
    slice_get h2 s1 = Some d1 /\ slice_get h2 s2 = Some d2
    /\ (forall (ws : list (nat * Byte.byte)) (h3 : heap),
          slice_sets h2 s1 ws = Some h3 ->
          slice_get h3 s2 = Some d2
          /\ slice_get h3 (getter_field g1 c) = Some d1
          /\ slice_get h3 (getter_field g2 c) = Some d2)
    /\ (forall (ws : list (nat * Byte.byte)) (h3 : heap),
          slice_sets h2 s2 ws = Some h3 ->
          slice_get h3 s1 = Some d1
          /\ slice_get h3 (getter_field g1 c) = Some d1
          /\ slice_get h3 (getter_field g2 c) = Some d2).
Proof.
  intros g1 g2 c h d1 d2 H1 H2.
  destruct g1, g2; cbn [getter_method getter_field] in *;
    unfold SessionID, ClientVersion, ServerVersion;
    now apply dup_pair.
Qed.

Lemma getters_of_different_fields_are_independent_witness :
  let '(s1, h1) := SessionID shared_conn shared_heap in
  let '(s2, h2) := ClientVersion shared_conn h1 in
  slice_get h2 s1 = Some [Byte.x01; Byte.x02; Byte.x03]
  /\ slice_get h2 s2 = Some [Byte.x03; Byte.x04].
Proof.
  pose proof (getters_of_different_fields_are_independent
                GetSessionID GetClientVersion shared_conn shared_heap
                [Byte.x01; Byte.x02; Byte.x03] [Byte.x03; Byte.x04]
                eq_refl eq_refl) as Hpair.
  cbn [getter_method getter_field] in Hpair.
  destruct (SessionID shared_conn shared_heap) as [s1 h1].
  destruct (ClientVersion shared_conn h1) as [s2 h2].
  destruct Hpair as (Hfirst & Hsecond & _).
  split; assumption.
Defined.

(** ** Sequences of adapter calls *)

(** X13: a run of [SendMessage] calls on one adapter, each message
    serialisable, hands the transport exactly the marshalled messages,
    one [writePacket] per message and in call order, whatever the
    transport answers to each; every call returns. *)
Theorem SendMessage_sequence_is_written_in_order :
  forall (codec : Codec) (W : Type) (h : handler W) (c : connection)
         (msgs : list any) (packets : list bytes) (w : W),
    Forall2 (fun msg packet => Marshal msg = Some packet) msgs packets ->
    let '(o, _, tr) := run h (mapM (SendMessage c) msgs) w in
    omap (written_of (transport c)) tr = packets
    /\ length tr = length msgs
    /\ exists results : list error_or_nil,
         o = Returned results /\ length results = length msgs.
Proof.
  intros codec W h c msgs packets w Hall. revert w.
  induction Hall as [| msg packet msgs packets HM Hall IH]; intros w.
  { cbn. repeat split. now exists []. }
  change (mapM (SendMessage c) (msg :: msgs))
    with (SendMessage c msg ≫= fun y =>
          mapM (SendMessage c) msgs ≫= fun k => Ret (y :: k)).
  rewrite run_bind, (SendMessage_run h c msg packet w HM).
  destruct (h _ (transport_writePacket (transport c) packet) w) as [r w1].
  rewrite run_bind. specialize (IH w1).
  destruct (run h (mapM (SendMessage c) msgs) w1) as [[o w2] tr].
  destruct IH as (Hwritten & Hlen & results & -> & Hresults).
  cbn. destruct (decide (transport c = transport c)); [| contradiction].
  rewrite !app_nil_r, Hwritten, Hlen.
  repeat split. exists (r :: results). cbn. now rewrite Hresults.
Qed.

Lemma SendMessage_sequence_is_written_in_order_witness :
  let '(o, _, tr) :=
    run (scripted writes_fail)
        (mapM (SendMessage sample_connection)
              [eof_message; aptr channelCloseMsg [FUint32 0]; eof_message])
        empty_World in
  omap (written_of (transport sample_connection)) tr
  = [eof_packet; [Byte.x61; Byte.x00; Byte.x00; Byte.x00; Byte.x00]; eof_packet]
  /\ length tr = 3
  /\ exists results : list error_or_nil,
       o = Returned results /\ length results = 3.
Proof.
  apply (SendMessage_sequence_is_written_in_order sample_codec World
           (scripted writes_fail) sample_connection
           [eof_message; aptr channelCloseMsg [FUint32 0]; eof_message]
           [eof_packet; [Byte.x61; Byte.x00; Byte.x00; Byte.x00; Byte.x00];
            eof_packet]
           empty_World).
  repeat constructor.
Defined.

(** X14: [Close] keeps no record of having been called: two calls in a
    row are two calls of the socket's [Close], the second made in the
    world the first left, and each returns its own call's answer. *)
Theorem Close_twice_reaches_the_socket_twice :
  forall (W : Type) (h : handler W) (c : connection) (w : W),
    let n := conn (connection_sshConn c) in
    let '(r1, w1) := h _ (conn_Close n) w in
    let '(r2, w2) := h _ (conn_Close n) w1 in
    run h (e1 ← Close c; e2 ← Close c; Ret (e1, e2)) w
    = (Returned (r1, r2), w2, [Called (conn_Close n) r1; Called (conn_Close n) r2]).
Proof.
  intros W h c w. cbn.
  destruct (h _ (conn_Close (conn (connection_sshConn c))) w) as [r1 w1].
  now destruct (h _ (conn_Close (conn (connection_sshConn c))) w1) as [r2 w2].
Qed.

(** ** The text of a disconnect error *)

Lemma append_cons (c : ascii) (s t : string) :
  String c s +:+ t = String c (s +:+ t).
Proof. reflexivity. Qed.

Lemma append_empty_l (t : string) : "" +:+ t = t.
Proof. reflexivity. Qed.

Lemma append_inv_head (s a b : string) : s +:+ a = s +:+ b -> a = b.
Proof.
  induction s as [| c s IH]; [trivial |].
  rewrite !append_cons. intros [= Heq]. now apply IH.
Qed.

(** A run of digits is delimited by the colon that follows it. *)
Lemma digits_then_colon (d1 : uint) :
  forall (d2 : uint) (x y : string),
    NilEmpty.string_of_uint d1 +:+ String ":" x
    = NilEmpty.string_of_uint d2 +:+ String ":" y ->
    d1 = d2 /\ x = y.
Proof.
  induction d1 as [| d1 IH | d1 IH | d1 IH | d1 IH | d1 IH
                   | d1 IH | d1 IH | d1 IH | d1 IH | d1 IH];
    intros [| d2 | d2 | d2 | d2 | d2 | d2 | d2 | d2 | d2 | d2] x y;
    cbn [NilEmpty.string_of_uint];
    rewrite ?append_cons, ?append_empty_l; intros Heq;
    try discriminate Heq;
    injection Heq as Heq;
    try (apply IH in Heq as [-> ->]);
    try subst; split; reflexivity.
Qed.

Lemma decimal_digits (n : N) :
  fmt.decimal n = NilEmpty.string_of_uint (N.to_uint n).
Proof.
  unfold fmt.decimal, NilZero.string_of_uint.
  destruct n as [| p]; [reflexivity |]. cbn [N.to_uint].
  pose proof (DecimalPos.Unsigned.to_uint_nonnil p) as Hnonnil.
  now destruct (Pos.to_uint p).
Qed.

Lemma DisconnectError_Error_text (d : DisconnectError.t) :
  DisconnectError.Error d
  = "ssh: disconnect, reason "
    +:+ fmt.decimal (DisconnectError.Reason d)
    +:+ String ":" (String " " (DisconnectError.Message d)).
Proof.
  destruct d as [r m].
  transitivity ("ssh: disconnect, reason " +:+ fmt.decimal r +:+ ": " +:+ (m +:+ "")).
  - reflexivity.
  - now rewrite append_empty_r.
Qed.

(** X15: the text of a [DisconnectError] determines the error: two
    errors that differ in reason or in message have different texts,
    also when a message begins with digits or a colon. *)
Theorem DisconnectError_Error_distinguishes :
  forall d1 d2 : DisconnectError.t,
    d1 <> d2 -> DisconnectError.Error d1 <> DisconnectError.Error d2.
Proof.
  intros d1 d2 Hne Heq. apply Hne.
  rewrite !DisconnectError_Error_text in Heq.
  apply append_inv_head in Heq.
  rewrite !decimal_digits in Heq.
  apply digits_then_colon in Heq as [Hreason Hmessage].
  apply DecimalN.Unsigned.to_uint_inj in Hreason.
  injection Hmessage as Hmessage.
  destruct d1, d2; cbn in *; now subst.
Qed.

Lemma DisconnectError_Error_distinguishes_witness :
  DisconnectError.Error short_reason_error
  <> DisconnectError.Error long_reason_error.
Proof.
  apply (DisconnectError_Error_distinguishes short_reason_error long_reason_error).
  discriminate.
Defined.
